(** * gemini: the concurrent test-run orchestrator of [cmd/gemini/root.go]

    A shallow embedding of the run coordinator ([runJob]), the worker loop
    ([Job], [mutationJob], [validationJob]), the reporter goroutine and the
    [Status] counters, together with the properties stated about them.

    Go's [int] is taken to be the 64-bit two's-complement integer of the
    usual amd64/arm64 targets; every arithmetic operation of the source is
    written with its wrap-around. *)

From stdpp Require Import base numbers list strings.
From Stdlib Require Import ZArith Lia.

Local Open Scope Z_scope.

(** ** Machine integers *)

Module GoInt.

Definition min_int : Z := - 2 ^ 63.
Definition max_int : Z := 2 ^ 63 - 1.

(** Two's-complement reduction of a mathematical integer to [int]. *)
Definition wrap (x : Z) : Z := (x + 2 ^ 63) `mod` 2 ^ 64 - 2 ^ 63.

Definition add (x y : Z) : Z := wrap (x + y).
Definition mul (x y : Z) : Z := wrap (x * y).
(** [x++] *)
Definition incr (x : Z) : Z := wrap (x + 1).
(** [int64(x)] of an [int] *)
Definition int64 (x : Z) : Z := wrap x.

Definition in_range (x : Z) : Prop := min_int <= x <= max_int.

End GoInt.

(** ** The outcome counter *)

(** [type Status struct { WriteOps, WriteErrors, ReadOps, ReadErrors int }] *)
Record Status : Type := mkStatus {
  WriteOps : Z;
  WriteErrors : Z;
  ReadOps : Z;
  ReadErrors : Z;
}.

(** [Status{}] *)
Definition zeroStatus : Status := mkStatus 0 0 0 0.

(** [func (r *Status) Merge(sum *Status) Status]: adds the receiver into
    [*sum], field by field, and returns the updated [*sum].  The caller's
    [testRes = res.Merge(&testRes)] stores that same value back, so the
    updated sum is the only thing that has to be threaded. *)
Definition Merge (r sum : Status) : Status :=
  {| WriteOps := GoInt.add (WriteOps sum) (WriteOps r);
     WriteErrors := GoInt.add (WriteErrors sum) (WriteErrors r);
     ReadOps := GoInt.add (ReadOps sum) (ReadOps r);
     ReadErrors := GoInt.add (ReadErrors sum) (ReadErrors r) |}.

(** Folding a sequence of handed-off counters into a running total, in the
    order of arrival. *)
Definition merge_all (total : Status) (rs : list Status) : Status :=
  foldl (fun sum r => Merge r sum) total rs.

(** ** Run configuration

    The package-level flag variables of [root.go] that the orchestrator
    reads.  [duration] only arms the reporter's timer, whose expiry is an
    event of the schedule below. *)
Record Config : Type := mkConfig {
  concurrency : Z;
  pkNumberPerThread : Z;
  seed : Z;
  verbose : bool;
  mode : string;
  failFast : bool;
  nonInteractive : bool;
}.

Definition writeMode : string := "write".
Definition readMode : string := "read".
Definition mixedMode : string := "mixed".

(** [func interactive() bool] *)
Definition interactive (cfg : Config) : bool := negb (nonInteractive cfg).

(** ** External collaborators

    The [gemini] package (schema, statement generator, session) is not part
    of this program.  What one loop iteration of a worker obtains from it is
    recorded as the [Answers] of that iteration. *)

(** A non-nil Go [error]; [nil] is [None] of [option error]. *)
Inductive error : Type :=
| ErrReadNoDataReturned
| ErrOther (msg : string).

(** [gemini.Stmt], of which the loop only prints [Query] and [Values()]. *)
Record Stmt : Type := mkStmt {
  Query : string;
  Values : list string;
}.

Inductive result (A : Type) : Type :=
| Ok (a : A)
| Err (err : error).
Arguments Ok {A} a.
Arguments Err {A} err.

Record Answers : Type := mkAnswers {
  ans_Intn : Z;                       (* p.Rand.Intn(100000) *)
  ans_GenMutateStmt : result Stmt;    (* schema.GenMutateStmt(table, &p) *)
  ans_Mutate : option error;          (* s.Mutate(mutateQuery, mutateValues...) *)
  ans_GenCheckStmt : Stmt;            (* schema.GenCheckStmt(table, &p) *)
  ans_Check : option error;           (* s.Check(table, checkQuery, checkValues...) *)
}.

(** ** Observable effects *)

(** What is written to standard output. *)
Inductive Line : Type :=
| PrintResult (r : Status)                    (* r.PrintResult(): the five-line summary *)
| Println (s : string)
| PrintStmt (stmt : Stmt)                     (* verbose: "%s (values=%v)" *)
| PrintGenFailed (err : error)                (* "Failed! Mutation statement generation failed" *)
| PrintMutateFailed (stmt : Stmt) (err : error)
| PrintCheckFailed (stmt : Stmt) (err : error).

(** The two places where [Job] sends on the channel [c]. *)
Inductive SendPoint : Type :=
| InLoop       (* the batch handoff inside the loop *)
| AfterLoop.   (* the send that follows the loop *)

Inductive Event : Type :=
| Print (l : Line)
| Send (pt : SendPoint) (s : Status)          (* c <- testStatus, completed *)
| WorkersDone                                 (* deferred wg.Done() of a worker *)
| Suffix (s : Status)                         (* sp.Suffix = ... *)
| CancelWorkers                               (* cancelWorkers() *)
| SpStop                                      (* deferred sp.Stop() *)
| ReporterDone.                               (* deferred reporter.Done() *)

(** ** The two operations of a worker *)

Definition incrWriteOps (s : Status) : Status :=
  mkStatus (GoInt.incr (WriteOps s)) (WriteErrors s) (ReadOps s) (ReadErrors s).
Definition incrWriteErrors (s : Status) : Status :=
  mkStatus (WriteOps s) (GoInt.incr (WriteErrors s)) (ReadOps s) (ReadErrors s).
Definition incrReadOps (s : Status) : Status :=
  mkStatus (WriteOps s) (WriteErrors s) (GoInt.incr (ReadOps s)) (ReadErrors s).
Definition incrReadErrors (s : Status) : Status :=
  mkStatus (WriteOps s) (WriteErrors s) (ReadOps s) (GoInt.incr (ReadErrors s)).

(** [func mutationJob(schema, table, s, p, testStatus *Status)]: the lines
    printed and the counter left in [*testStatus]. *)
Definition mutationJob (cfg : Config) (a : Answers) (testStatus : Status)
  : list Line * Status :=
  match ans_GenMutateStmt a with
  | Err err => ([PrintGenFailed err], incrWriteErrors testStatus)
  | Ok mutateStmt =>
      let out := if verbose cfg then [PrintStmt mutateStmt] else [] in
      let testStatus := incrWriteOps testStatus in
      match ans_Mutate a with
      | Some err =>
          (out ++ [PrintMutateFailed mutateStmt err], incrWriteErrors testStatus)
      | None => (out, testStatus)
      end
  end.

(** [func validationJob(schema, table, s, p, testStatus *Status)] *)
Definition validationJob (cfg : Config) (a : Answers) (testStatus : Status)
  : list Line * Status :=
  let checkStmt := ans_GenCheckStmt a in
  let out := if verbose cfg then [PrintStmt checkStmt] else [] in
  match ans_Check a with
  | None => (out, incrReadOps testStatus)
  | Some err =>
      match err with
      | ErrReadNoDataReturned => (out, testStatus)
      | _ => (out ++ [PrintCheckFailed checkStmt err], incrReadErrors testStatus)
      end
  end.

(** ** The worker loop, [func Job] *)

(** The locals of [Job] that live across iterations. *)
Record Locals : Type := mkLocals {
  i : Z;
  testStatus : Status;
}.

Definition initLocals : Locals := mkLocals 0 zeroStatus.

(** How the [for] loop is left. *)
Inductive LoopExit : Type :=
| ByReturn                       (* [case <-ctx.Done(): return] *)
| ByBreak (pending : Status).    (* [break], with the counter at that point *)

(** What the non-blocking [select] at the top of an iteration finds. *)
Inductive Tick : Type :=
| Cancelled              (* ctx.Done() is closed *)
| Proceed (a : Answers). (* default: the iteration runs, with these answers *)

Record Iter : Type := mkIter {
  iter_out : list Line;               (* lines printed by the operation *)
  iter_handoff : option Status;       (* the counter sent inside the loop, if any *)
  iter_next : Locals + LoopExit;      (* next iteration's locals, or the exit *)
}.

(** The [switch mode] of the loop body. *)
Definition run_op (cfg : Config) (a : Answers) (testStatus : Status)
  : list Line * Status :=
  if String.eqb (mode cfg) writeMode then mutationJob cfg a testStatus
  else if String.eqb (mode cfg) readMode then validationJob cfg a testStatus
  else
    let ind := Z.rem (ans_Intn a) 2 in
    if ind =? 0 then mutationJob cfg a testStatus
    else validationJob cfg a testStatus.

(** The loop body below the [select]. *)
Definition Job_body (cfg : Config) (a : Answers) (l : Locals) : Iter :=
  let '(out, st) := run_op cfg a (testStatus l) in
  let '(handoff, st) :=
    if Z.rem (i l) 1000 =? 0 then (Some st, zeroStatus) else (None, st) in
  if failFast cfg && (0 <? ReadErrors st)
  then mkIter out handoff (inr (ByBreak st))
  else mkIter out handoff (inl (mkLocals (GoInt.incr (i l)) st)).

(** One iteration of the loop. *)
Definition Job_iter (cfg : Config) (t : Tick) (l : Locals) : Iter :=
  match t with
  | Cancelled => mkIter [] None (inr ByReturn)
  | Proceed a => Job_body cfg a l
  end.

Definition iter_events (it : Iter) : list Event :=
  (Print <$> iter_out it) ++
  match iter_handoff it with
  | Some s => [Send InLoop s]
  | None => []
  end.

(** What follows the loop.  After a [return] only the deferred [wg.Done()]
    runs.  After a [break] the worker goes into the send that follows the
    loop; the channel is unbuffered, so that send completes only if the
    reporter takes it, which [received] says: if it does, the counter is
    sent and [wg.Done()] follows; if it does not, the worker stays in the
    send and neither happens. *)
Definition exit_events (received : bool) (x : LoopExit) : list Event :=
  match x with
  | ByReturn => [WorkersDone]
  | ByBreak pending =>
      if received then [Send AfterLoop pending; WorkersDone] else []
  end.

(** The loop over the ticks of a worker, every handoff inside the loop
    being received.  When the ticks run out the worker is still looping
    and its locals are returned. *)
Fixpoint Job_loop (cfg : Config) (ticks : list Tick) (l : Locals)
  : list Event * (Locals + LoopExit) :=
  match ticks with
  | [] => ([], inl l)
  | t :: ticks =>
      let it := Job_iter cfg t l in
      match iter_next it with
      | inl l' =>
          let '(evs, r) := Job_loop cfg ticks l' in
          (iter_events it ++ evs, r)
      | inr x => (iter_events it, inr x)
      end
  end.

(** The events of [Job] over the given ticks, [received] saying whether
    the reporter takes the send after the loop, should the worker get
    there. *)
Definition Job (cfg : Config) (received : bool) (ticks : list Tick) : list Event :=
  let '(evs, r) := Job_loop cfg ticks initLocals in
  match r with
  | inl _ => evs
  | inr x => evs ++ exit_events received x
  end.

Definition Job_exit (cfg : Config) (ticks : list Tick) : option LoopExit :=
  match (Job_loop cfg ticks initLocals).2 with
  | inl _ => None
  | inr x => Some x
  end.

Definition is_send (pt : SendPoint) (e : Event) : bool :=
  match e, pt with
  | Send InLoop _, InLoop => true
  | Send AfterLoop _, AfterLoop => true
  | _, _ => false
  end.

Definition count_sends (pt : SendPoint) (evs : list Event) : nat :=
  length (filter (fun e => is_send pt e = true) evs).

(** ** The reporter goroutine of [runJob] *)

(** The case taken by one round of the reporter's [select]. *)
Inductive Select : Type :=
| TimerC                   (* <-timer.C *)
| ReporterCtxDone          (* <-reporterCtx.Done() *)
| Recv (res : Status).     (* res := <-c *)

(** The deferred calls of the reporter, most recent first. *)
Definition reporter_deferred (cfg : Config) : list Event :=
  (if interactive cfg then [SpStop] else []) ++ [ReporterDone].

(** One round of the reporter's loop from the running total [testRes]: its
    effects in order, and the new total, or [None] once it has returned. *)
Definition reporter_step (cfg : Config) (sel : Select) (testRes : Status)
  : list Event * option Status :=
  match sel with
  | TimerC =>
      ([Print (PrintResult testRes);
        Print (Println "Test run completed. Exiting.");
        CancelWorkers] ++ reporter_deferred cfg, None)
  | ReporterCtxDone =>
      ([Print (PrintResult testRes)] ++ reporter_deferred cfg, None)
  | Recv res =>
      let testRes := Merge res testRes in
      let sfx := if interactive cfg then [Suffix testRes] else [] in
      if 0 <? ReadErrors testRes then
        if failFast cfg then
          (sfx ++ [Print (PrintResult testRes);
                   Print (Println "Error in data validation. Exiting.");
                   CancelWorkers] ++ reporter_deferred cfg, None)
        else (sfx ++ [Print (PrintResult testRes)], Some testRes)
      else (sfx, Some testRes)
  end.

(** ** Partition ranges *)

(** [math/rand]: a source is determined by the seed it is created from, and
    a generator by its source. *)
Inductive Source : Type := NewSource (seed : Z).
Inductive Rand : Type := New (src : Source).

(** [gemini.PartitionRange] *)
Record PartitionRange : Type := mkPartitionRange {
  Min : Z;
  Max : Z;
  Rand_ : Rand;
}.

(** The values taken by [i] in [for i := 0; i < concurrency; i++]. *)
Definition worker_indices (concurrency : Z) : list Z :=
  Z.of_nat <$> seq 0 (Z.to_nat concurrency).

(** The composite literal [gemini.PartitionRange{...}] built for worker [i]. *)
Definition newPartitionRange (cfg : Config) (i : Z) : PartitionRange :=
  let minRange := 0 in
  let maxRange := pkNumberPerThread cfg in
  {| Min := GoInt.add minRange (GoInt.mul i maxRange);
     Max := GoInt.add maxRange (GoInt.mul i maxRange);
     Rand_ := New (NewSource (GoInt.int64 (seed cfg))) |}.

(** The ranges of one table's workers, in launch order. *)
Definition table_partitions (cfg : Config) : list PartitionRange :=
  newPartitionRange cfg <$> worker_indices (concurrency cfg).

(** The (table, range) pairs with which [runJob] launches its workers. *)
Definition partitions {Table : Type} (cfg : Config) (tables : list Table)
  : list (Table * PartitionRange) :=
  table ← tables; (fun p => (table, p)) <$> table_partitions cfg.

(** [x] lies in the half-open interval of [p]. *)
Definition owns (p : PartitionRange) (x : Z) : Prop := Min p <= x < Max p.

(** ** The whole run: workers, reporter and coordinator

    The channel [c] is unbuffered, so a send completes only as the reporter
    takes it; once the reporter has left its loop a sender stays
    suspended.  A round of the reporter's [select] is taken as one step:
    the statements of a round are logged in their order, and the turns of
    the workers come between rounds, not between the statements of one. *)

Inductive Worker : Type :=
| Running (l : Locals) (script : list Answers)
    (* at the top of the loop; [script] holds the answers still to come *)
| Handoff (s : Status) (next : Locals + LoopExit) (script : list Answers)
    (* suspended in the send inside the loop *)
| Flushing (pending : Status)
    (* suspended in the send after the loop *)
| Exited.

Record Sys : Type := mkSys {
  workers : list Worker;
  reporter : option Status;   (* the running total [testRes]; [None] once the loop is left *)
  workerCtx : bool;           (* workerCtx is cancelled *)
  log : list Event;           (* what has happened, oldest first *)
}.

Definition set_worker (k : nat) (w : Worker) (sys : Sys) : Sys :=
  mkSys (<[k:=w]> (workers sys)) (reporter sys) (workerCtx sys) (log sys).

Definition add_log (evs : list Event) (sys : Sys) : Sys :=
  mkSys (workers sys) (reporter sys) (workerCtx sys) (log sys ++ evs).

Definition cancels (evs : list Event) : bool :=
  existsb (fun e => match e with CancelWorkers => true | _ => false end) evs.

(** The reporter runs one round of its [select] on the case [sel]. *)
Definition reporter_round (cfg : Config) (sel : Select) (sys : Sys) : option Sys :=
  match reporter sys with
  | None => None
  | Some testRes =>
      let '(evs, next) := reporter_step cfg sel testRes in
      Some (mkSys (workers sys) next (workerCtx sys || cancels evs) (log sys ++ evs))
  end.

(** A send on [c] at point [pt]; [None] when nobody receives. *)
Definition deliver (cfg : Config) (pt : SendPoint) (s : Status) (sys : Sys)
  : option Sys :=
  reporter_round cfg (Recv s) (add_log [Send pt s] sys).

(** Worker [k] goes on after its iteration. *)
Definition after_iter (k : nat) (next : Locals + LoopExit)
    (script : list Answers) (sys : Sys) : Sys :=
  match next with
  | inl l' => set_worker k (Running l' script) sys
  | inr ByReturn => set_worker k Exited (add_log [WorkersDone] sys)
  | inr (ByBreak pending) => set_worker k (Flushing pending) sys
  end.

(** Worker [k] runs up to its next suspension point. *)
Definition worker_turn (cfg : Config) (k : nat) (sys : Sys) : Sys :=
  match workers sys !! k with
  | Some (Running l script) =>
      if workerCtx sys then after_iter k (iter_next (Job_iter cfg Cancelled l)) script sys
      else
        match script with
        | [] => sys
        | a :: script =>
            let it := Job_iter cfg (Proceed a) l in
            let sys := add_log (Print <$> iter_out it) sys in
            match iter_handoff it with
            | Some s => set_worker k (Handoff s (iter_next it) script) sys
            | None => after_iter k (iter_next it) script sys
            end
        end
  | Some (Handoff s next script) =>
      match deliver cfg InLoop s sys with
      | Some sys => after_iter k next script sys
      | None => sys
      end
  | Some (Flushing pending) =>
      match deliver cfg AfterLoop pending sys with
      | Some sys => set_worker k Exited (add_log [WorkersDone] sys)
      | None => sys
      end
  | Some Exited | None => sys
  end.

Definition is_exited (w : Worker) : bool :=
  match w with Exited => true | _ => false end.

(** [workers.Wait(); cancelReporter(); reporter.Wait()] *)
Definition coordinator_turn (cfg : Config) (sys : Sys) : Sys :=
  if forallb is_exited (workers sys) then
    match reporter_round cfg ReporterCtxDone sys with
    | Some sys => sys
    | None => sys
    end
  else sys.

Definition timer_turn (cfg : Config) (sys : Sys) : Sys :=
  match reporter_round cfg TimerC sys with
  | Some sys => sys
  | None => sys
  end.

(** The scheduler's choices. *)
Inductive Action : Type :=
| WorkerTurn (k : nat)
| TimerFires
| WorkersWaited.

Definition step (cfg : Config) (sys : Sys) (act : Action) : Sys :=
  match act with
  | WorkerTurn k => worker_turn cfg k sys
  | TimerFires => timer_turn cfg sys
  | WorkersWaited => coordinator_turn cfg sys
  end.

Definition run (cfg : Config) (sys : Sys) (schedule : list Action) : Sys :=
  foldl (step cfg) sys schedule.

(** [func runJob]: one worker per (table, index) pair, the [k]-th of them
    obtaining the answers [scripts !!! k], and the reporter with a zero
    total. *)
Definition runJob {Table : Type} (cfg : Config) (tables : list Table)
    (scripts : list (list Answers)) : Sys :=
  mkSys (imap (fun k _ => Running initLocals (scripts !!! k)) (partitions cfg tables))
        (Some zeroStatus) false [].

(** The totals printed so far, oldest first. *)
Definition reports (evs : list Event) : list Status :=
  omap (fun e => match e with Print (PrintResult r) => Some r | _ => None end) evs.

(** The last totals printed. *)
Definition final_report (sys : Sys) : option Status := last (reports (log sys)).

(** ** Bookkeeping over a run *)

Definition sumZ (zs : list Z) : Z := foldr Z.add 0 zs.

(** The answers a worker has not consumed yet. *)
Definition remaining (w : Worker) : list Answers :=
  match w with
  | Running _ script | Handoff _ _ script => script
  | Flushing _ | Exited => []
  end.

(** The counters a worker holds and has not handed to the reporter. *)
Definition held (w : Worker) : list Status :=
  match w with
  | Running l _ => [testStatus l]
  | Handoff s (inl l) _ => [s; testStatus l]
  | Handoff s (inr (ByBreak pending)) _ => [s; pending]
  | Handoff s (inr ByReturn) _ => [s]
  | Flushing pending => [pending]
  | Exited => []
  end.

(** Loop iterations that went past the [select], over all workers: the
    answers consumed from the scripts. *)
Definition attempted (scripts : list (list Answers)) (ws : list Worker) : Z :=
  sumZ (imap (fun k w => Z.of_nat (length (scripts !!! k))
                         - Z.of_nat (length (remaining w))) ws).

(** Write errors counted by the workers and not yet handed off. *)
Definition unreported (ws : list Worker) : Z :=
  sumZ ((fun w => sumZ (WriteErrors <$> held w)) <$> ws).

(** The scenario of a generator that always succeeds and a session whose
    [Mutate] always fails. *)
Definition mutate_always_fails (a : Answers) : bool :=
  match ans_GenMutateStmt a, ans_Mutate a with
  | Ok _, Some _ => true
  | _, _ => false
  end.

(** A printed line other than the totals. *)
Definition is_diagnostic (l : Line) : Prop :=
  match l with PrintResult _ => False | _ => True end.

(** ** Invariants of a run *)

(** The counters a worker holds satisfy [P], and the answers it has yet to
    consume satisfy [Q]. *)
Definition worker_ok (P : Status -> Prop) (Q : Answers -> Prop) (w : Worker) : Prop :=
  Forall P (held w) /\ Forall Q (remaining w).

(** [P] holds of every counter in the system: of the running total, of what
    the workers hold, and of every total printed so far. *)
Definition sys_ok (P : Status -> Prop) (Q : Answers -> Prop) (sys : Sys) : Prop :=
  (forall total, reporter sys = Some total -> P total) /\
  Forall (worker_ok P Q) (workers sys) /\
  Forall P (reports (log sys)).

Definition no_reads (s : Status) : Prop := ReadOps s = 0 /\ ReadErrors s = 0.
Definition no_writes (s : Status) : Prop := WriteOps s = 0 /\ WriteErrors s = 0.

(** Every write counted is also counted as an error, and no read is. *)
Definition writes_all_failed (s : Status) : Prop :=
  WriteOps s = WriteErrors s /\ GoInt.in_range (WriteErrors s) /\ no_reads s.

(** A worker that is in its loop. *)
Definition in_loop (w : Worker) : Prop :=
  match w with
  | Running _ _ | Handoff _ (inl _) _ => True
  | _ => False
  end.

(** While the reporter collects, no worker has left its loop and the write
    errors it has merged are those counted by the workers and handed off,
    as an [int]. *)
Definition count_ok (scripts : list (list Answers)) (sys : Sys) : Prop :=
  forall total, reporter sys = Some total ->
    workerCtx sys = false /\
    Forall in_loop (workers sys) /\
    GoInt.wrap (WriteErrors total + unreported (workers sys))
    = GoInt.wrap (attempted scripts (workers sys)).

(** ** Four statements read literally *)

(** A worker that gets [n] iterations done has handed off one counter per
    full thousand of them. *)
Definition handoff_per_full_thousand : Prop :=
  forall cfg ticks evs l,
    Job_loop cfg ticks initLocals = (evs, inl l) ->
    count_sends InLoop evs = (length ticks `div` 1000)%nat.

(** However a worker terminates, the send after the loop precedes its
    [wg.Done()]. *)
Definition flush_on_every_exit : Prop :=
  forall cfg received ticks x,
    Job_exit cfg ticks = Some x ->
    exists pre s, Job cfg received ticks = pre ++ [Send AfterLoop s; WorkersDone].

(** Whatever the span, the [C] workers of a table own the intervals from
    [k * span] to [(k + 1) * span], no two of which share a key, and which
    together cover the keys from 0 to [C * span]. *)
Definition partitions_cover_any_span : Prop :=
  forall cfg,
    0 <= concurrency cfg ->
    let span := pkNumberPerThread cfg in
    let ps := table_partitions cfg in
    (forall (k : nat) p, ps !! k = Some p ->
       Min p = Z.of_nat k * span /\ Max p = (Z.of_nat k + 1) * span) /\
    (forall (j k : nat) p q x, j <> k -> ps !! j = Some p -> ps !! k = Some q ->
       ~ (owns p x /\ owns q x)) /\
    (forall x, (exists p, p ∈ ps /\ owns p x) <-> 0 <= x < concurrency cfg * span).

(** With a [Mutate] that always fails in write mode, the totals printed as
    the reporter stops show no write operation and as many write errors as
    mutations were attempted. *)
Definition failing_writes_report {Table : Type} (cfg : Config)
    (tables : list Table) (scripts : list (list Answers))
    (schedule : list Action) : Prop :=
  let sys := run cfg (runJob cfg tables scripts) schedule in
  forall r, final_report sys = Some r ->
    WriteOps r = 0 /\ WriteErrors r = attempted scripts (workers sys).

(** ** A concrete run

    One table, two workers of 50 partitions each, write mode, no fail-fast,
    a generator that always succeeds and a session whose [Mutate] always
    fails. *)

Definition example_cfg : Config := mkConfig 2 50 1 false writeMode false true.

(** Two workers and a span of [2 ^ 62] partitions each. *)
Definition wide_cfg : Config := mkConfig 2 (2 ^ 62) 1 false writeMode false true.
Definition example_tables : list string := ["users"].

Definition failing_answers : Answers :=
  mkAnswers 0 (Ok (mkStmt "INSERT" [])) (Some (ErrOther "write failed"))
            (mkStmt "SELECT" []) None.

Definition example_scripts : list (list Answers) :=
  [[failing_answers; failing_answers]; [failing_answers]].

(** The first worker runs an iteration, hands its counter off, runs a
    second iteration, and the timer fires. *)
Definition example_schedule : list Action :=
  [WorkerTurn 0; WorkerTurn 0; WorkerTurn 0; TimerFires].

(** A fail-fast run in read mode, a check that matches and one that does
    not. *)
Definition failfast_cfg : Config := mkConfig 2 50 1 false readMode true true.

Definition matching_answers : Answers :=
  mkAnswers 1 (Ok (mkStmt "INSERT" [])) None (mkStmt "SELECT" []) None.

Definition diverging_answers : Answers :=
  mkAnswers 1 (Ok (mkStmt "INSERT" [])) None (mkStmt "SELECT" [])
            (Some (ErrOther "rows differ")).

(** ** Further bookkeeping *)

(** The counters sent on [c], at either point, oldest first. *)
Definition sent (evs : list Event) : list Status :=
  omap (fun e => match e with Send _ s => Some s | _ => None end) evs.

(** What one operation adds to a counter: its outcome on the zero
    counter. *)
Definition op_delta (cfg : Config) (a : Answers) : Status :=
  (run_op cfg a zeroStatus).2.

(** Every field of [s] lies between 0 and [b]. *)
Definition fields_within (b : Z) (s : Status) : Prop :=
  (0 <= WriteOps s <= b) /\ (0 <= WriteErrors s <= b) /\
  (0 <= ReadOps s <= b) /\ (0 <= ReadErrors s <= b).

(** The total a round of the reporter ends with. *)
Definition round_total (sel : Select) (testRes : Status) : Status :=
  match sel with
  | Recv res => Merge res testRes
  | TimerC | ReporterCtxDone => testRes
  end.

(** The send in which a worker is suspended, if it is. *)
Definition pending_send (w : Worker) : option (SendPoint * Status) :=
  match w with
  | Handoff s _ _ => Some (InLoop, s)
  | Flushing pending => Some (AfterLoop, pending)
  | Running _ _ | Exited => None
  end.

Definition count_events (p : Event -> bool) (evs : list Event) : nat :=
  length (filter (fun e => p e = true) evs).

Definition is_workers_done (e : Event) : bool :=
  match e with WorkersDone => true | _ => false end.
Definition is_cancel (e : Event) : bool :=
  match e with CancelWorkers => true | _ => false end.
Definition is_reporter_done (e : Event) : bool :=
  match e with ReporterDone => true | _ => false end.

(** The workers that have returned. *)
Definition exited_count (ws : list Worker) : nat :=
  length (filter (fun w => is_exited w = true) ws).

Definition done_mark (w : Worker) : list Event :=
  if is_exited w then [WorkersDone] else [].

(** The three ways in which a step changes the system: worker [k] moves on
    its own, printing diagnostics; the reporter takes the send in which
    worker [k] is suspended and runs its round on it; the reporter runs a
    round on its timer or on the coordinator's request. *)
Inductive step_kind (cfg : Config) (sys : Sys) : Sys -> Prop :=
| step_idle : step_kind cfg sys sys
| step_local k w w' out :
    workers sys !! k = Some w ->
    is_exited w = false ->
    Forall is_diagnostic out ->
    step_kind cfg sys
      (mkSys (<[k:=w']> (workers sys)) (reporter sys) (workerCtx sys)
             (log sys ++ (Print <$> out) ++ done_mark w'))
| step_deliver k w w' pt s testRes :
    workers sys !! k = Some w ->
    pending_send w = Some (pt, s) ->
    reporter sys = Some testRes ->
    step_kind cfg sys
      (mkSys (<[k:=w']> (workers sys))
             (reporter_step cfg (Recv s) testRes).2
             (workerCtx sys || cancels (reporter_step cfg (Recv s) testRes).1)
             (log sys ++ [Send pt s] ++ (reporter_step cfg (Recv s) testRes).1
                      ++ done_mark w'))
| step_round sel testRes :
    sel = TimerC \/ sel = ReporterCtxDone ->
    reporter sys = Some testRes ->
    step_kind cfg sys
      (mkSys (workers sys)
             (reporter_step cfg sel testRes).2
             (workerCtx sys || cancels (reporter_step cfg sel testRes).1)
             (log sys ++ (reporter_step cfg sel testRes).1)).

(** The reporter's total is the merge of every counter received, and once
    it has returned, so is the last total printed. *)
Definition totals_ok (sys : Sys) : Prop :=
  match reporter sys with
  | Some total => total = merge_all zeroStatus (sent (log sys))
  | None => final_report sys = Some (merge_all zeroStatus (sent (log sys)))
  end.

(** The cancellation of the workers and the return of the reporter, as
    the log shows them. *)
Definition shutdown_ok (sys : Sys) : Prop :=
  (workerCtx sys = true -> reporter sys = None) /\
  count_events is_cancel (log sys) = (if workerCtx sys then 1 else 0)%nat /\
  count_events is_reporter_done (log sys)
  = (if reporter sys is Some _ then 0 else 1)%nat.

(** What the log holds after the first [cancelWorkers()], if there is one. *)
Fixpoint after_cancel (evs : list Event) : option (list Event) :=
  match evs with
  | [] => None
  | CancelWorkers :: post => Some post
  | _ :: evs => after_cancel evs
  end.

(** As long as the reporter is in its loop the workers have not been
    cancelled, and once they have been, no counter is received and no
    total printed any more. *)
Definition after_cancel_ok (sys : Sys) : Prop :=
  match after_cancel (log sys) with
  | Some post => reporter sys = None /\ sent post = [] /\ reports post = []
  | None => True
  end.

(** The concurrency is not negative and [len(schema.Tables) * concurrency],
    the count given to [workers.Add], is an [int]. *)
Definition wait_group_fits {Table : Type} (cfg : Config) (tables : list Table) : Prop :=
  0 <= concurrency cfg /\
  Z.of_nat (length tables) * concurrency cfg <= GoInt.max_int.

(** The reporter collects and nothing has been shut down. *)
Definition collecting (sys : Sys) : Prop :=
  is_Some (reporter sys) /\ workerCtx sys = false /\ Forall in_loop (workers sys).

(** The conversion [int32(x)]. *)
Definition int32 (x : Z) : Z := (x + 2 ^ 31) `mod` 2 ^ 32 - 2 ^ 31.

(** [wg.Add(delta)] on a [sync.WaitGroup] nobody waits on.  The counter is
    kept in 32 bits, so only the low 32 bits of [delta] are added to it;
    the result is the new counter, or [None] when that is negative and
    [Add] panics. *)
Definition WaitGroup_Add (counter delta : Z) : option Z :=
  let v := int32 (counter + delta) in
  if v <? 0 then None else Some v.

(** ** [func run]: what precedes [runJob]

    The schema, with the statement lists its methods return, and the
    session are collaborators; what they answer during the set-up is
    recorded in [SetupAnswers]. *)

(** [*gemini.Schema], as far as [run] and [runJob] look at it. *)
Record Schema (Table : Type) : Type := mkSchema {
  Tables : list Table;
  GetDropSchema : list string;
  GetCreateSchema : list string;
}.
Arguments mkSchema {Table} _ _ _.
Arguments Tables {Table} _.
Arguments GetDropSchema {Table} _.
Arguments GetCreateSchema {Table} _.

(** The flags that only [run] reads. *)
Record Flags : Type := mkFlags {
  schemaFile : string;
  dropSchema : bool;
}.

Record SetupAnswers (Table : Type) : Type := mkSetupAnswers {
  ans_readSchema : result (Schema Table);   (* readSchema(schemaFile) *)
  ans_GenSchema : Schema Table;             (* gemini.GenSchema() *)
  ans_setup_Mutate : nat -> option error;   (* the n-th session.Mutate(stmt), from 0 *)
  ans_runJob_returns : bool;                (* workers.Wait() and reporter.Wait() return *)
}.
Arguments mkSetupAnswers {Table} _ _ _ _.
Arguments ans_readSchema {Table} _.
Arguments ans_GenSchema {Table} _.
Arguments ans_setup_Mutate {Table} _ _.
Arguments ans_runJob_returns {Table} _.

Inductive SetupEvent : Type :=
| SeedRand (seed : Z)                     (* rand.Seed(int64(seed)) *)
| PrintBanner                             (* the six lines of settings *)
| PrintCannotCreateSchema (err : error)   (* "cannot create schema: %v" *)
| PrintSchema                             (* "Schema: %v\n" *)
| NewSession                              (* gemini.NewSession(...) *)
| EchoStmt (stmt : string)                (* verbose: fmt.Println(stmt) *)
| SessionMutate (stmt : string)           (* session.Mutate(stmt) *)
| PrintError (err : error)                (* fmt.Printf("%v", err) *)
| RunJob                                  (* runJob(Job, schema, session, mode) *)
| SessionClose.                           (* deferred session.Close() *)

(** One of the two [for _, stmt := range ...] loops of [run], the session
    having answered [n] calls before it: the events, and the number of
    calls answered after it, or [None] when the loop has returned from
    [run]. *)
Fixpoint exec_stmts (verbose : bool) (Mutate : nat -> option error)
    (n : nat) (stmts : list string) : list SetupEvent * option nat :=
  match stmts with
  | [] => ([], Some n)
  | stmt :: stmts =>
      let echo := if verbose then [EchoStmt stmt] else [] in
      match Mutate n with
      | Some err => (echo ++ [SessionMutate stmt; PrintError err], None)
      | None =>
          let '(evs, r) := exec_stmts verbose Mutate (S n) stmts in
          (echo ++ SessionMutate stmt :: evs, r)
      end
  end.

(** The schema [run] works with. *)
Definition schema_of {Table : Type} (flags : Flags) (env : SetupAnswers Table)
  : result (Schema Table) :=
  if (0 <? String.length (schemaFile flags))%nat
  then ans_readSchema env
  else Ok (ans_GenSchema env).

(** After the call of [runJob], [run] gets to its deferred
    [session.Close()]: [runJob] returns, or its [workers.Add] panics and
    the panic unwinds [run].  It does not when [runJob] stays in
    [workers.Wait()], some worker being suspended in a send for good. *)
Definition run_unwinds {Table : Type} (cfg : Config) (env : SetupAnswers Table)
    (schema : Schema Table) : bool :=
  match WaitGroup_Add 0 (GoInt.mul (Z.of_nat (length (Tables schema))) (concurrency cfg)) with
  | None => true
  | Some _ => ans_runJob_returns env
  end.

(** [func run]: the events up to where [run] ends or stays for good, and
    the schema [runJob] was called with, if it was. *)
Definition run_main {Table : Type} (cfg : Config) (flags : Flags)
    (env : SetupAnswers Table) : list SetupEvent * option (Schema Table) :=
  let banner := [SeedRand (GoInt.int64 (seed cfg)); PrintBanner] in
  match schema_of flags env with
  | Err err => (banner ++ [PrintCannotCreateSchema err], None)
  | Ok schema =>
      let opened := banner ++ [PrintSchema; NewSession] in
      let '(evs1, r1) :=
        if dropSchema flags && negb (String.eqb (mode cfg) readMode)
        then exec_stmts (verbose cfg) (ans_setup_Mutate env) 0 (GetDropSchema schema)
        else ([], Some 0%nat) in
      match r1 with
      | None => (opened ++ evs1 ++ [SessionClose], None)
      | Some n =>
          let '(evs2, r2) :=
            exec_stmts (verbose cfg) (ans_setup_Mutate env) n (GetCreateSchema schema) in
          match r2 with
          | None => (opened ++ evs1 ++ evs2 ++ [SessionClose], None)
          | Some _ =>
              let closing := if run_unwinds cfg env schema then [SessionClose] else [] in
              (opened ++ evs1 ++ evs2 ++ RunJob :: closing, Some schema)
          end
      end
  end.

(** [workers.Add(len(schema.Tables) * concurrency)] at the head of
    [runJob], on the fresh wait group [workers]: the counter it leaves and
    the workers launched after it, or [None] when [Add] panics and nothing
    is launched. *)
Definition runJob_start {Table : Type} (cfg : Config) (tables : list Table)
    (scripts : list (list Answers)) : option (Z * Sys) :=
  match WaitGroup_Add 0 (GoInt.mul (Z.of_nat (length tables)) (concurrency cfg)) with
  | None => None
  | Some counter => Some (counter, runJob cfg tables scripts)
  end.

(** The statements handed to the session, in order. *)
Definition mutated (evs : list SetupEvent) : list string :=
  omap (fun e => match e with SessionMutate stmt => Some stmt | _ => None end) evs.

(** The statements [run] sets out to execute. *)
Definition planned {Table : Type} (cfg : Config) (flags : Flags)
    (schema : Schema Table) : list string :=
  (if dropSchema flags && negb (String.eqb (mode cfg) readMode)
   then GetDropSchema schema else [])
  ++ GetCreateSchema schema.

(** The first of the calls [n], ..., [n + len - 1] that the session answers
    with an error. *)
Fixpoint first_failure (Mutate : nat -> option error) (n len : nat) : option nat :=
  match len with
  | O => None
  | S len =>
      match Mutate n with
      | Some _ => Some n
      | None => first_failure Mutate (S n) len
      end
  end.

Definition count_setup (e : SetupEvent -> bool) (evs : list SetupEvent) : nat :=
  length (filter (fun x => e x = true) evs).

Definition is_new_session (e : SetupEvent) : bool :=
  match e with NewSession => true | _ => false end.
Definition is_session_close (e : SetupEvent) : bool :=
  match e with SessionClose => true | _ => false end.
Definition is_session_mutate (e : SetupEvent) : bool :=
  match e with SessionMutate _ => true | _ => false end.

(** A set-up with a schema of two tables, generated since no schema file
    is named, and a session that refuses its second statement. *)
Definition example_schema : Schema string :=
  mkSchema ["users"; "orders"] ["DROP KEYSPACE ks"]
           ["CREATE KEYSPACE ks"; "CREATE TABLE users"; "CREATE TABLE orders"].

Definition example_flags : Flags := mkFlags "" true.

Definition refusing_setup : SetupAnswers string :=
  mkSetupAnswers (Err (ErrOther "no file")) example_schema
    (fun n => if (n =? 1)%nat then Some (ErrOther "refused") else None) true.

Definition willing_setup : SetupAnswers string :=
  mkSetupAnswers (Err (ErrOther "no file")) example_schema (fun _ => None) true.

(** The same session, and a run in which some worker stays suspended. *)
Definition stuck_setup : SetupAnswers string :=
  mkSetupAnswers (Err (ErrOther "no file")) example_schema (fun _ => None) false.

(** A worker between two iterations. *)
Definition is_running (w : Worker) : Prop :=
  match w with Running _ _ => True | _ => False end.

(** * Properties *)

(** ** Machine arithmetic *)

Section GoIntFacts.
Import GoInt.

Lemma wrap_in_range x : in_range (wrap x).
Proof.
  unfold in_range, wrap, min_int, max_int.
  pose proof (Z.mod_pos_bound (x + 2 ^ 63) (2 ^ 64) ltac:(lia)). lia.
Qed.

Lemma wrap_small x : in_range x -> wrap x = x.
Proof.
  unfold in_range, wrap, min_int, max_int. intros Hx.
  rewrite Z.mod_small by lia. lia.
Qed.

Lemma wrap_add_l x y : wrap (wrap x + y) = wrap (x + y).
Proof.
  unfold wrap.
  replace ((x + 2 ^ 63) `mod` 2 ^ 64 - 2 ^ 63 + y + 2 ^ 63)
    with ((x + 2 ^ 63) `mod` 2 ^ 64 + y) by lia.
  rewrite Zplus_mod_idemp_l. do 2 f_equal. lia.
Qed.

Lemma wrap_add_r x y : wrap (x + wrap y) = wrap (x + y).
Proof. rewrite (Z.add_comm x), wrap_add_l. f_equal. lia. Qed.

Lemma GoInt_add_comm x y : add x y = add y x.
Proof. unfold add. f_equal. lia. Qed.

Lemma GoInt_add_assoc x y z : add x (add y z) = add (add x y) z.
Proof. unfold add. rewrite wrap_add_l, wrap_add_r. f_equal. lia. Qed.

End GoIntFacts.

(** ** Merging counters *)

Lemma Merge_comm a b : Merge a b = Merge b a.
Proof. unfold Merge. f_equal; apply GoInt_add_comm. Qed.

Lemma Merge_assoc a b c : Merge a (Merge b c) = Merge (Merge a b) c.
Proof.
  unfold Merge; simpl. f_equal;
    rewrite <- !GoInt_add_assoc; f_equal; apply GoInt_add_comm.
Qed.

Lemma Merge_swap a b total : Merge a (Merge b total) = Merge b (Merge a total).
Proof.
  rewrite !Merge_assoc. f_equal. apply Merge_comm.
Qed.

Lemma merge_all_perm total rs rs' :
  rs ≡ₚ rs' -> merge_all total rs = merge_all total rs'.
Proof.
  intros Hp. revert total.
  induction Hp as [|r rs rs' _ IH|r1 r2 rs|rs1 rs2 rs3 _ IH1 _ IH2]; intros total; simpl.
  - reflexivity.
  - apply IH.
  - unfold merge_all; simpl. by rewrite Merge_swap.
  - by rewrite IH1.
Qed.

(** C4. [Merge] adds the receiver into the sum field by field, in the
    arithmetic of [int]; it is commutative and associative, and the total
    obtained from a sequence of counters does not depend on the order in
    which they are merged. *)
Theorem Merge_fieldwise_comm_assoc :
  (forall r sum,
      Merge r sum =
      {| WriteOps := GoInt.wrap (WriteOps sum + WriteOps r);
         WriteErrors := GoInt.wrap (WriteErrors sum + WriteErrors r);
         ReadOps := GoInt.wrap (ReadOps sum + ReadOps r);
         ReadErrors := GoInt.wrap (ReadErrors sum + ReadErrors r) |}) /\
  (forall a b, Merge a b = Merge b a) /\
  (forall a b c, Merge a (Merge b c) = Merge (Merge a b) c) /\
  (forall total rs rs', rs ≡ₚ rs' -> merge_all total rs = merge_all total rs').
Proof.
  split; [reflexivity|].
  split; [apply Merge_comm|].
  split; [apply Merge_assoc|apply merge_all_perm].
Qed.

(** ** The two operations *)

(** C5. A validation whose check returns no error adds one to [ReadOps]
    and changes nothing else; one whose check returns
    [ErrReadNoDataReturned] changes no counter; one whose check returns any
    other error adds one to [ReadErrors] and changes nothing else. *)
Theorem validationJob_accounting cfg a st :
  (validationJob cfg a st).2 =
  match ans_Check a with
  | None =>
      mkStatus (WriteOps st) (WriteErrors st)
               (GoInt.wrap (ReadOps st + 1)) (ReadErrors st)
  | Some ErrReadNoDataReturned => st
  | Some (ErrOther _) =>
      mkStatus (WriteOps st) (WriteErrors st)
               (ReadOps st) (GoInt.wrap (ReadErrors st + 1))
  end.
Proof.
  unfold validationJob.
  destruct (ans_Check a) as [[|msg]|]; reflexivity.
Qed.

(** C10. A mutation leaves [ReadOps] and [ReadErrors] as they were, and a
    validation leaves [WriteOps] and [WriteErrors] as they were, whatever
    the counter they start from. *)
Theorem jobs_frame cfg a st :
  (ReadOps (mutationJob cfg a st).2 = ReadOps st /\
   ReadErrors (mutationJob cfg a st).2 = ReadErrors st) /\
  (WriteOps (validationJob cfg a st).2 = WriteOps st /\
   WriteErrors (validationJob cfg a st).2 = WriteErrors st).
Proof.
  unfold mutationJob, validationJob. split.
  - destruct (ans_GenMutateStmt a); [destruct (ans_Mutate a)|]; auto.
  - destruct (ans_Check a) as [[|msg]|]; auto.
Qed.

(** ** The reporter *)

#[local] Set Warnings "-clear-no-such-hyp".

Ltac elem_of_list :=
  rewrite ?elem_of_app, ?elem_of_cons, ?elem_of_nil.

(** C7. On receiving a counter the reporter merges it into its total.  It
    prints that total exactly when its [ReadErrors] is positive, and then
    before anything else is printed; exactly when moreover [failFast] is
    set it cancels the workers and returns, running its deferred
    [reporter.Done()]; otherwise it goes on collecting from the merged
    total. *)
Theorem reporter_recv_merges cfg res testRes :
  let total := Merge res testRes in
  let evs := (reporter_step cfg (Recv res) testRes).1 in
  let next := (reporter_step cfg (Recv res) testRes).2 in
  next = (if (0 <? ReadErrors total) && failFast cfg then None else Some total) /\
  (Print (PrintResult total) ∈ evs <-> 0 < ReadErrors total) /\
  (forall l, Print l ∈ evs -> head (omap (fun e => match e with Print l => Some l | _ => None end) evs)
                               = Some (PrintResult total)) /\
  (CancelWorkers ∈ evs <-> 0 < ReadErrors total /\ failFast cfg = true) /\
  (ReporterDone ∈ evs <-> next = None).
Proof.
  intros total evs next. subst evs next. unfold reporter_step, reporter_deferred.
  fold total.
  destruct (Z.ltb_spec 0 (ReadErrors total)) as [Hpos|Hle];
    destruct (failFast cfg), (interactive cfg); simpl;
    split_and!; try done; try intros l; elem_of_list; naive_solver lia.
Qed.

(** ** Partition ranges *)

Lemma elem_of_partitions {Table : Type} cfg (tables : list Table) table p :
  (table, p) ∈ partitions cfg tables <-> table ∈ tables /\ p ∈ table_partitions cfg.
Proof.
  unfold partitions. rewrite list_elem_of_bind. split.
  - intros (t & Hin & Ht). apply list_elem_of_fmap in Hin as (q & Heq & Hq).
    by simplify_eq.
  - intros [Ht Hp]. exists table. split; [|done].
    apply list_elem_of_fmap. by exists p.
Qed.

Lemma table_partitions_lookup cfg (k : nat) p :
  table_partitions cfg !! k = Some p <->
  (k < Z.to_nat (concurrency cfg))%nat /\ p = newPartitionRange cfg (Z.of_nat k).
Proof.
  unfold table_partitions, worker_indices.
  rewrite !list_lookup_fmap. split.
  - destruct (seq 0 (Z.to_nat (concurrency cfg)) !! k) as [n|] eqn:Hn; [|done].
    apply lookup_seq in Hn as [-> Hlt]. simpl. intros [= <-]. done.
  - intros [Hlt ->]. by rewrite lookup_seq_lt.
Qed.

Lemma newPartitionRange_bounds cfg (k : Z) :
  0 <= k < concurrency cfg ->
  GoInt.in_range (concurrency cfg * pkNumberPerThread cfg) ->
  Min (newPartitionRange cfg k) = k * pkNumberPerThread cfg /\
  Max (newPartitionRange cfg k) = (k + 1) * pkNumberPerThread cfg.
Proof.
  intros Hk Hr. unfold newPartitionRange; cbn [Min Max].
  unfold GoInt.add, GoInt.mul. rewrite !wrap_add_r, Z.add_0_l.
  replace (pkNumberPerThread cfg + k * pkNumberPerThread cfg)
    with ((k + 1) * pkNumberPerThread cfg) by lia.
  unfold GoInt.in_range, GoInt.min_int, GoInt.max_int in Hr.
  split; apply wrap_small;
    unfold GoInt.in_range, GoInt.min_int, GoInt.max_int; nia.
Qed.

(** C9. Every partition range launched in a run carries a generator made
    from a source seeded with the one global seed, so the generators of any
    two workers, whatever their tables and indices, start from the same
    state. *)
Theorem partitions_share_seed {Table : Type} cfg (tables : list Table) tp tq :
  tp ∈ partitions cfg tables ->
  tq ∈ partitions cfg tables ->
  Rand_ tp.2 = New (NewSource (GoInt.int64 (seed cfg))) /\
  Rand_ tq.2 = Rand_ tp.2.
Proof.
  assert (Hone : forall t : Table * PartitionRange,
             t ∈ partitions cfg tables ->
             Rand_ t.2 = New (NewSource (GoInt.int64 (seed cfg)))).
  { intros [table p] Hin. apply elem_of_partitions in Hin as [_ Hp].
    apply list_elem_of_lookup in Hp as [k Hk].
    apply table_partitions_lookup in Hk as [_ ->]. reflexivity. }
  intros Hp Hq. rewrite (Hone _ Hp), (Hone _ Hq). done.
Qed.

Lemma partitions_share_seed_witness :
  Rand_ (newPartitionRange example_cfg 0) = New (NewSource 1) /\
  Rand_ (newPartitionRange example_cfg 1) = Rand_ (newPartitionRange example_cfg 0).
Proof.
  apply (partitions_share_seed example_cfg ["users"; "orders"]
           ("users", newPartitionRange example_cfg 0)
           ("orders", newPartitionRange example_cfg 1)).
  - apply (list_elem_of_lookup_2 _ 0%nat). reflexivity.
  - apply (list_elem_of_lookup_2 _ 3%nat). reflexivity.
Defined.

(** C3, as the code has it.  When the concurrency is not negative and
    concurrency times [pkNumberPerThread] is an [int], every table is
    given the same [concurrency] ranges; worker [k] owns the half-open
    interval from [k * span] to [(k + 1) * span], the intervals of two
    different workers of a table share no key, and together they cover
    exactly the keys from 0 up to [concurrency * span]. *)
Theorem partitions_disjoint_cover {Table : Type} cfg (tables : list Table) :
  0 <= concurrency cfg ->
  GoInt.in_range (concurrency cfg * pkNumberPerThread cfg) ->
  let span := pkNumberPerThread cfg in
  let ps := table_partitions cfg in
  (forall table p, (table, p) ∈ partitions cfg tables <-> table ∈ tables /\ p ∈ ps) /\
  length ps = Z.to_nat (concurrency cfg) /\
  (forall (k : nat) p, ps !! k = Some p ->
     Min p = Z.of_nat k * span /\ Max p = (Z.of_nat k + 1) * span) /\
  (forall (j k : nat) p q x, j <> k -> ps !! j = Some p -> ps !! k = Some q ->
     ~ (owns p x /\ owns q x)) /\
  (forall x, (exists p, p ∈ ps /\ owns p x) <-> 0 <= x < concurrency cfg * span).
Proof.
  intros HC Hr span ps.
  assert (Hb : forall (k : nat) p, ps !! k = Some p ->
             (Z.of_nat k < concurrency cfg) /\
             Min p = Z.of_nat k * span /\ Max p = (Z.of_nat k + 1) * span).
  { intros k p Hk. apply table_partitions_lookup in Hk as [Hlt ->].
    split; [lia|]. apply newPartitionRange_bounds; [lia|done]. }
  split_and!.
  - intros table p. apply elem_of_partitions.
  - subst ps. unfold table_partitions, worker_indices.
    by rewrite !length_fmap, length_seq.
  - intros k p Hk. by apply Hb in Hk as [_ ?].
  - intros j k p q x Hne Hj Hk [[Hp1 Hp2] [Hq1 Hq2]].
    apply Hb in Hj as (_ & Hpm & HpM). apply Hb in Hk as (_ & Hqm & HqM).
    rewrite Hpm, HpM in *. rewrite Hqm, HqM in *.
    assert (Z.of_nat j < Z.of_nat k \/ Z.of_nat k < Z.of_nat j) as [Hlt|Hlt] by lia; nia.
  - intros x. split.
    + intros (p & Hin & Hx1 & Hx2).
      apply list_elem_of_lookup in Hin as [k Hk].
      apply Hb in Hk as (Hlt & Hm & HM). rewrite Hm in Hx1. rewrite HM in Hx2. nia.
    + intros [Hx0 Hx].
      assert (0 < span) as Hspan by nia.
      pose proof (Z.div_pos x span Hx0 Hspan) as Hq0.
      pose proof (Z.mul_div_le x span Hspan) as Hq1.
      pose proof (Z.mul_succ_div_gt x span Hspan) as Hq2.
      assert (x `div` span < concurrency cfg) as Hq3 by nia.
      exists (newPartitionRange cfg (x `div` span)). split.
      * apply (list_elem_of_lookup_2 _ (Z.to_nat (x `div` span))).
        apply table_partitions_lookup. split; [lia|]. f_equal. lia.
      * destruct (newPartitionRange_bounds cfg (x `div` span)) as [Hm HM]; [lia|done|].
        unfold owns. rewrite Hm, HM. fold span. lia.
Qed.

(** C3, read literally, fails: with two workers and a span of [2 ^ 62] the
    upper bound of the second worker wraps around to [- 2 ^ 63], so it
    owns no key at all and the key [2 ^ 62] is left to nobody. *)
Lemma partitions_cover_any_span_fails : ~ partitions_cover_any_span.
Proof.
  intros Hclaim.
  destruct (Hclaim wide_cfg ltac:(by vm_compute)) as (Hbounds & _ & _).
  destruct (Hbounds 1%nat (newPartitionRange wide_cfg 1) eq_refl) as [_ Hmax].
  vm_compute in Hmax. discriminate Hmax.
Qed.

Lemma partitions_disjoint_cover_witness :
  length (table_partitions example_cfg) = 2%nat /\
  ((exists p, p ∈ table_partitions example_cfg /\ owns p 73) <-> 0 <= 73 < 2 * 50).
Proof.
  assert (H0 : 0 <= concurrency example_cfg) by (simpl; lia).
  assert (Hr : GoInt.in_range (concurrency example_cfg * pkNumberPerThread example_cfg))
    by (unfold GoInt.in_range, GoInt.min_int, GoInt.max_int; simpl; lia).
  destruct (partitions_disjoint_cover example_cfg example_tables H0 Hr)
    as (_ & Hlen & _ & _ & Hcover).
  split; [exact Hlen|exact (Hcover 73)].
Defined.

(** ** The worker loop *)

Lemma Job_body_handoff cfg a l :
  iter_handoff (Job_body cfg a l) =
  if Z.rem (i l) 1000 =? 0 then Some (run_op cfg a (testStatus l)).2 else None.
Proof.
  unfold Job_body. destruct (run_op cfg a (testStatus l)) as [out st]; simpl.
  destruct (Z.rem (i l) 1000 =? 0); simpl.
  - rewrite andb_false_r. reflexivity.
  - destruct (failFast cfg && (0 <? ReadErrors st)); reflexivity.
Qed.

Lemma Job_body_reset cfg a l s :
  iter_handoff (Job_body cfg a l) = Some s ->
  iter_next (Job_body cfg a l) = inl (mkLocals (GoInt.incr (i l)) zeroStatus).
Proof.
  unfold Job_body. destruct (run_op cfg a (testStatus l)) as [out st]; simpl.
  destruct (Z.rem (i l) 1000 =? 0); simpl.
  - rewrite andb_false_r. reflexivity.
  - destruct (failFast cfg && (0 <? ReadErrors st)); discriminate.
Qed.

Lemma Job_body_next cfg a l :
  (exists st, iter_next (Job_body cfg a l) = inl (mkLocals (GoInt.incr (i l)) st)) \/
  (exists pending, iter_next (Job_body cfg a l) = inr (ByBreak pending) /\
     failFast cfg = true /\ 0 < ReadErrors pending).
Proof.
  unfold Job_body. destruct (run_op cfg a (testStatus l)) as [out st]; simpl.
  destruct (Z.rem (i l) 1000 =? 0); simpl.
  - rewrite andb_false_r. left. eauto.
  - destruct (failFast cfg) eqn:Hff; simpl; [|left; eauto].
    destruct (Z.ltb_spec 0 (ReadErrors st)); [right|left]; eauto.
Qed.

Lemma count_sends_app pt evs1 evs2 :
  count_sends pt (evs1 ++ evs2) = (count_sends pt evs1 + count_sends pt evs2)%nat.
Proof. unfold count_sends. by rewrite filter_app, length_app. Qed.

Lemma count_sends_prints pt (out : list Line) : count_sends pt (Print <$> out) = 0%nat.
Proof. induction out as [|x out IH]; [done|]. exact IH. Qed.

Lemma iter_events_in_loop it :
  count_sends AfterLoop (iter_events it) = 0%nat /\ WorkersDone ∉ iter_events it.
Proof.
  unfold iter_events. split.
  - rewrite count_sends_app, count_sends_prints. by destruct (iter_handoff it).
  - rewrite elem_of_app, list_elem_of_fmap.
    intros [(x & Hx & _)|Hin]; [done|].
    destruct (iter_handoff it); revert Hin; elem_of_list; naive_solver.
Qed.

Lemma iter_events_handoffs it :
  count_sends InLoop (iter_events it) = if iter_handoff it is Some _ then 1%nat else 0%nat.
Proof.
  unfold iter_events. rewrite count_sends_app, count_sends_prints.
  by destruct (iter_handoff it).
Qed.

Lemma Job_loop_in_loop cfg ticks l :
  count_sends AfterLoop (Job_loop cfg ticks l).1 = 0%nat /\
  WorkersDone ∉ (Job_loop cfg ticks l).1.
Proof.
  revert l. induction ticks as [|t ticks IH]; intros l; simpl.
  - split; [done|]. apply not_elem_of_nil.
  - pose proof (iter_events_in_loop (Job_iter cfg t l)) as [Hc Hd].
    destruct (iter_next (Job_iter cfg t l)) as [l'|x]; [|done].
    specialize (IH l'). destruct (Job_loop cfg ticks l') as [evs r]; simpl in *.
    destruct IH as [IHc IHd]. split.
    + by rewrite count_sends_app, Hc, IHc.
    + rewrite elem_of_app. tauto.
Qed.

Lemma Job_loop_exit cfg ticks l x :
  (Job_loop cfg ticks l).2 = inr x ->
  match x with
  | ByReturn => Cancelled ∈ ticks
  | ByBreak pending => failFast cfg = true /\ 0 < ReadErrors pending
  end.
Proof.
  revert l. induction ticks as [|t ticks IH]; intros l; simpl; [done|].
  destruct (iter_next (Job_iter cfg t l)) as [l'|y] eqn:Hnext.
  - specialize (IH l'). destruct (Job_loop cfg ticks l') as [evs r]; simpl in *.
    intros Hr. specialize (IH Hr). destruct x; [|done].
    by apply list_elem_of_further.
  - simpl. intros [= ->]. destruct t as [|a]; simpl in Hnext.
    + injection Hnext as <-. apply list_elem_of_here.
    + destruct (Job_body_next cfg a l) as [[st Hst]|(p & Hp & Hff & Hre)];
        rewrite Hnext in *; [done|]. by simplify_eq.
Qed.

(** The local fail-fast exit: the first check matches and is handed off at
    once, the second does not, and the worker leaves its loop with the
    error in its counter, which it sends before completing when the
    reporter receives it. *)
Example Job_fail_fast_exit :
  Job failfast_cfg true [Proceed matching_answers; Proceed diverging_answers;
                         Proceed matching_answers] =
  [Send InLoop (mkStatus 0 0 1 0);
   Print (PrintCheckFailed (mkStmt "SELECT" []) (ErrOther "rows differ"));
   Send AfterLoop (mkStatus 0 0 0 1);
   WorkersDone].
Proof. reflexivity. Qed.

(** C2, read literally, fails: a worker whose first poll finds the context
    cancelled signals completion without having sent anything. *)
Lemma flush_on_every_exit_fails : ~ flush_on_every_exit.
Proof.
  intros Hclaim.
  destruct (Hclaim example_cfg true [Cancelled] ByReturn eq_refl) as (pre & s & Heq).
  apply (f_equal length) in Heq. rewrite length_app in Heq. simpl in Heq. lia.
Qed.

Lemma Job_loop_schedule cfg ticks l evs l' :
  Job_loop cfg ticks l = (evs, inl l') ->
  0 <= i l ->
  i l + Z.of_nat (length ticks) <= GoInt.max_int ->
  i l' = i l + Z.of_nat (length ticks) /\
  Z.of_nat (count_sends InLoop evs) =
    (i l + Z.of_nat (length ticks) + 999) `div` 1000 - (i l + 999) `div` 1000.
Proof.
  revert l evs. induction ticks as [|t ticks IH]; intros l evs; simpl.
  - intros [= <- <-] _ _. split; [lia|]. rewrite Z.add_0_r. unfold count_sends. simpl. lia.
  - destruct t as [|a]; simpl; [done|].
    pose proof (Job_body_handoff cfg a l) as Hh.
    pose proof (iter_events_handoffs (Job_body cfg a l)) as Hcount.
    destruct (Job_body_next cfg a l) as [[st Hst]|(p & Hp & _)]; rewrite ?Hp; [|done].
    rewrite Hst.
    destruct (Job_loop cfg ticks (mkLocals (GoInt.incr (i l)) st)) as [evs' r] eqn:Hloop.
    intros [= <- ->] H0 Hmax.
    assert (Hincr : GoInt.incr (i l) = i l + 1).
    { apply wrap_small. unfold GoInt.in_range, GoInt.min_int, GoInt.max_int in *. lia. }
    rewrite Hincr in Hloop.
    apply IH in Hloop as [Hi Hc]; simpl in *; [|lia..].
    split; [lia|].
    rewrite count_sends_app, Nat2Z.inj_add, Hc, Hcount, Hh.
    rewrite Z.rem_mod_nonneg by lia.
    destruct (Z.eqb_spec (i l `mod` 1000) 0) as [Hm|Hm]; simpl;
      Z.to_euclidean_division_equations; lia.
Qed.

(** C6, as the code has it.  Counting iterations from zero, a worker hands
    its counter off inside the loop exactly in the iterations whose number
    is a multiple of 1000: at the end of the first iteration and then after
    every further 1000.  The counter handed off is the one just updated by
    the operation, and right after the handoff the local counter is the
    zero [Status]. *)
Theorem Job_handoff_schedule cfg ticks evs l a :
  Job_loop cfg ticks initLocals = (evs, inl l) ->
  Z.of_nat (length ticks) <= GoInt.max_int ->
  let n := Z.of_nat (length ticks) in
  i l = n /\
  Z.of_nat (count_sends InLoop evs) = (n + 999) `div` 1000 /\
  iter_handoff (Job_body cfg a l) =
    (if n `mod` 1000 =? 0 then Some (run_op cfg a (testStatus l)).2 else None) /\
  (forall s, iter_handoff (Job_body cfg a l) = Some s ->
     iter_next (Job_body cfg a l) = inl (mkLocals (GoInt.incr n) zeroStatus)).
Proof.
  intros Hloop Hmax n.
  apply Job_loop_schedule in Hloop as [Hi Hc]; simpl in *; [|lia..].
  rewrite Z.add_0_l in Hi. fold n in Hi, Hc.
  split_and!.
  - done.
  - rewrite Hc. change ((0 + 999) `div` 1000) with 0.
    rewrite Z.sub_0_r. do 2 f_equal.
  - rewrite Job_body_handoff, Hi, Z.rem_mod_nonneg by lia. done.
  - intros s Hs. rewrite <- Hi. by apply Job_body_reset in Hs.
Qed.

Lemma Job_handoff_schedule_witness :
  i (mkLocals 2 (mkStatus 1 1 0 0)) = 2 /\
  Z.of_nat (count_sends InLoop
    [Print (PrintMutateFailed (mkStmt "INSERT" []) (ErrOther "write failed"));
     Send InLoop (mkStatus 1 1 0 0);
     Print (PrintMutateFailed (mkStmt "INSERT" []) (ErrOther "write failed"))]) = 1.
Proof.
  assert (Hmax : Z.of_nat (length [Proceed failing_answers; Proceed failing_answers])
                 <= GoInt.max_int) by (vm_compute; discriminate).
  destruct (Job_handoff_schedule example_cfg
              [Proceed failing_answers; Proceed failing_answers] _ _
              failing_answers eq_refl Hmax) as (Hi & Hc & _).
  split; [exact Hi|exact Hc].
Defined.

(** C6, read literally, fails: the first handoff comes after a single
    iteration, not after a thousand. *)
Lemma handoff_per_full_thousand_fails : ~ handoff_per_full_thousand.
Proof.
  intros Hclaim.
  specialize (Hclaim example_cfg [Proceed failing_answers] _ _ eq_refl).
  vm_compute in Hclaim. discriminate.
Qed.

(** ** The whole run *)

Lemma reports_app evs1 evs2 : reports (evs1 ++ evs2) = reports evs1 ++ reports evs2.
Proof. apply omap_app. Qed.

Lemma reports_diagnostics (out : list Line) :
  Forall is_diagnostic out -> reports (Print <$> out) = [].
Proof.
  induction 1 as [|l out Hl _ IH]; [done|].
  destruct l; simpl in *; done.
Qed.

Lemma mutationJob_out cfg a st : Forall is_diagnostic (mutationJob cfg a st).1.
Proof.
  unfold mutationJob.
  destruct (ans_GenMutateStmt a), (ans_Mutate a), (verbose cfg); simpl;
    repeat constructor.
Qed.

Lemma validationJob_out cfg a st : Forall is_diagnostic (validationJob cfg a st).1.
Proof.
  unfold validationJob.
  destruct (ans_Check a) as [[|msg]|], (verbose cfg); simpl; repeat constructor.
Qed.

Lemma run_op_out cfg a st : Forall is_diagnostic (run_op cfg a st).1.
Proof.
  unfold run_op.
  repeat case_match; auto using mutationJob_out, validationJob_out.
Qed.

Lemma Job_iter_out cfg t l : reports (Print <$> iter_out (Job_iter cfg t l)) = [].
Proof.
  apply reports_diagnostics. destruct t as [|a]; simpl; [constructor|].
  unfold Job_body. pose proof (run_op_out cfg a (testStatus l)) as Hout.
  destruct (run_op cfg a (testStatus l)) as [out st]; simpl in *.
  repeat case_match; simplify_eq; done.
Qed.

(** Once the reporter has returned it stays so, and no totals are printed
    any more. *)
Lemma step_reporter_gone cfg sys act :
  reporter sys = None ->
  reporter (step cfg sys act) = None /\
  reports (log (step cfg sys act)) = reports (log sys).
Proof.
  intros Hgone. destruct act as [k| |]; simpl.
  - unfold worker_turn.
    destruct (workers sys !! k) as [[l script|s next script|pending|]|]; try done.
    + destruct (workerCtx sys); simpl.
      { split; [done|]. rewrite reports_app. simpl. by rewrite app_nil_r. }
      destruct script as [|a script]; [done|].
      pose proof (Job_iter_out cfg (Proceed a) l) as Hout. simpl in Hout.
      assert (Hlog : reports (log sys ++ (Print <$> iter_out (Job_body cfg a l)))
                     = reports (log sys)).
      { by rewrite reports_app, Hout, app_nil_r. }
      destruct (iter_handoff (Job_body cfg a l)); [done|].
      unfold after_iter.
      destruct (iter_next (Job_body cfg a l)) as [l'|[|p]]; simpl; try done.
      split; [done|]. rewrite reports_app, Hlog. simpl. by rewrite app_nil_r.
    + unfold deliver, reporter_round. simpl. by rewrite Hgone.
    + unfold deliver, reporter_round. simpl. by rewrite Hgone.
  - unfold timer_turn, reporter_round. by rewrite Hgone.
  - unfold coordinator_turn, reporter_round. rewrite Hgone. by case_match.
Qed.

Lemma run_reporter_gone cfg sys schedule :
  reporter sys = None ->
  reporter (run cfg sys schedule) = None /\
  reports (log (run cfg sys schedule)) = reports (log sys).
Proof.
  revert sys. induction schedule as [|act schedule IH]; intros sys Hgone; [done|].
  simpl. destruct (step_reporter_gone cfg sys act Hgone) as [Hr Hl].
  destruct (IH _ Hr) as [Hr' Hl']. split; [done|]. by rewrite Hl', Hl.
Qed.

Lemma run_snoc cfg sys schedule act :
  run cfg sys (schedule ++ [act]) = step cfg (run cfg sys schedule) act.
Proof. unfold run. by rewrite foldl_app. Qed.

(** A property of counters that the operations and [Merge] maintain is
    maintained by every step of the run. *)
Section Invariant.
Context (cfg : Config) (P : Status -> Prop) (Q : Answers -> Prop).
Hypothesis P_zero : P zeroStatus.
Hypothesis P_op : forall a st, Q a -> P st -> P (run_op cfg a st).2.
Hypothesis P_merge : forall r sum, P r -> P sum -> P (Merge r sum).

Lemma Job_body_ok a l script :
  Q a -> P (testStatus l) -> Forall Q script ->
  match iter_handoff (Job_body cfg a l) with
  | Some s => worker_ok P Q (Handoff s (iter_next (Job_body cfg a l)) script)
  | None =>
      match iter_next (Job_body cfg a l) with
      | inl l' => worker_ok P Q (Running l' script)
      | inr ByReturn => True
      | inr (ByBreak pending) => worker_ok P Q (Flushing pending)
      end
  end.
Proof.
  intros Ha Hl Hs. unfold Job_body, worker_ok.
  specialize (P_op a _ Ha Hl).
  destruct (run_op cfg a (testStatus l)) as [out st]; simpl in *.
  destruct (Z.rem (i l) 1000 =? 0); simpl.
  - rewrite andb_false_r. simpl. auto.
  - destruct (failFast cfg && (0 <? ReadErrors st)); simpl; auto.
Qed.

Lemma set_worker_ok k w sys :
  sys_ok P Q sys -> worker_ok P Q w -> sys_ok P Q (set_worker k w sys).
Proof.
  intros (Hr & Hw & Hl) Hok. split_and!; [done| |done].
  simpl. by apply Forall_insert.
Qed.

Lemma add_log_ok evs sys :
  sys_ok P Q sys -> reports evs = [] -> sys_ok P Q (add_log evs sys).
Proof.
  intros (Hr & Hw & Hl) Hevs. split_and!; [done|done|].
  simpl. by rewrite reports_app, Hevs, app_nil_r.
Qed.

Lemma reporter_deferred_reports : reports (reporter_deferred cfg) = [].
Proof. unfold reporter_deferred. by destruct (interactive cfg). Qed.

Lemma reporter_step_ok sel testRes :
  P testRes ->
  (forall res, sel = Recv res -> P res) ->
  Forall P (reports (reporter_step cfg sel testRes).1) /\
  (forall total, (reporter_step cfg sel testRes).2 = Some total -> P total).
Proof.
  intros Ht Hres. destruct sel as [| |res].
  - simpl. rewrite reporter_deferred_reports. split; [by constructor|done].
  - simpl. rewrite reporter_deferred_reports. split; [by constructor|done].
  - specialize (Hres res eq_refl). specialize (P_merge _ _ Hres Ht).
    unfold reporter_step, reporter_deferred.
    destruct (0 <? ReadErrors (Merge res testRes)), (failFast cfg),
      (interactive cfg); simpl;
      (split; [by repeat constructor|intros ? ?; by simplify_eq]).
Qed.

Lemma reporter_round_ok sel sys sys' :
  sys_ok P Q sys ->
  (forall res, sel = Recv res -> P res) ->
  reporter_round cfg sel sys = Some sys' ->
  sys_ok P Q sys'.
Proof.
  intros (Hr & Hw & Hl) Hres. unfold reporter_round.
  destruct (reporter sys) as [testRes|] eqn:Hrep; [|done].
  destruct (reporter_step_ok sel testRes) as [Hprinted Hnext]; [auto..|].
  destruct (reporter_step cfg sel testRes) as [evs next]; simpl in *.
  intros [= <-]. split_and!; simpl; [done|done|].
  rewrite reports_app. by apply Forall_app.
Qed.

Lemma deliver_ok pt s sys sys' :
  sys_ok P Q sys -> P s -> deliver cfg pt s sys = Some sys' -> sys_ok P Q sys'.
Proof.
  intros Hok Hs. unfold deliver. apply reporter_round_ok.
  - by apply add_log_ok.
  - by intros res [= <-].
Qed.

Lemma after_iter_ok k next script sys :
  sys_ok P Q sys ->
  match next with
  | inl l' => worker_ok P Q (Running l' script)
  | inr ByReturn => True
  | inr (ByBreak pending) => worker_ok P Q (Flushing pending)
  end ->
  sys_ok P Q (after_iter k next script sys).
Proof.
  intros Hok Hnext. destruct next as [l'|[|pending]]; simpl.
  - by apply set_worker_ok.
  - apply set_worker_ok; [by apply add_log_ok|]. by split.
  - by apply set_worker_ok.
Qed.

Lemma step_ok sys act : sys_ok P Q sys -> sys_ok P Q (step cfg sys act).
Proof.
  intros Hok. destruct act as [k| |]; simpl.
  - unfold worker_turn.
    destruct (workers sys !! k) as [w|] eqn:Hk; [|done].
    assert (Hw : worker_ok P Q w).
    { destruct Hok as (_ & Hws & _). by eapply Forall_lookup_1. }
    destruct w as [l script|s next script|pending|]; [| | |done].
    + destruct (workerCtx sys).
      { by apply after_iter_ok. }
      destruct script as [|a script]; [done|].
      destruct Hw as [Hheld Hrem]; simpl in *.
      apply Forall_cons in Hrem as [Ha Hrem]. apply Forall_cons in Hheld as [Hheld _].
      pose proof (Job_body_ok a l script Ha Hheld Hrem) as Hbody.
      assert (Hok' : sys_ok P Q (add_log (Print <$> iter_out (Job_body cfg a l)) sys)).
      { apply add_log_ok; [done|]. apply (Job_iter_out cfg (Proceed a) l). }
      destruct (iter_handoff (Job_body cfg a l)) as [s|].
      * by apply set_worker_ok.
      * by apply after_iter_ok.
    + destruct Hw as [Hheld Hrem]; simpl in *.
      destruct (deliver cfg InLoop s sys) as [sys'|] eqn:Hd; [|done].
      apply after_iter_ok.
      * eapply deliver_ok; [done| |done].
        destruct next as [l'|[|p]]; by apply Forall_cons in Hheld as [? _].
      * destruct next as [l'|[|p]]; [| done |];
          apply Forall_cons in Hheld as [_ Hheld]; by split.
    + destruct Hw as [Hheld _]; simpl in *. apply Forall_cons in Hheld as [Hheld _].
      destruct (deliver cfg AfterLoop pending sys) as [sys'|] eqn:Hd; [|done].
      apply set_worker_ok; [|by split]. apply add_log_ok; [|done].
      by eapply deliver_ok.
  - unfold timer_turn.
    destruct (reporter_round cfg TimerC sys) as [sys'|] eqn:Hr; [|done].
    eapply reporter_round_ok; [done| |done]. by intros res.
  - unfold coordinator_turn. destruct (forallb is_exited (workers sys)); [|done].
    destruct (reporter_round cfg ReporterCtxDone sys) as [sys'|] eqn:Hr; [|done].
    eapply reporter_round_ok; [done| |done]. by intros res.
Qed.

Lemma run_ok sys schedule : sys_ok P Q sys -> sys_ok P Q (run cfg sys schedule).
Proof.
  revert sys. induction schedule as [|act schedule IH]; intros sys Hok; [done|].
  simpl. by apply IH, step_ok.
Qed.

Lemma runJob_ok {Table : Type} (tables : list Table) scripts :
  Forall (Forall Q) scripts -> sys_ok P Q (runJob cfg tables scripts).
Proof.
  intros Hs. split_and!; simpl.
  - by intros total [= <-].
  - apply Forall_lookup. intros k w Hk.
    apply list_lookup_imap_Some in Hk as (tp & _ & ->).
    split; simpl; [by constructor|].
    destruct (scripts !! k) as [script|] eqn:Hsk.
    + rewrite (list_lookup_total_correct _ _ _ Hsk). by eapply Forall_lookup_1.
    + rewrite list_lookup_total_alt, Hsk. constructor.
  - constructor.
Qed.

End Invariant.

Lemma run_op_write cfg a st :
  mode cfg = writeMode -> run_op cfg a st = mutationJob cfg a st.
Proof. unfold run_op. by intros ->. Qed.

Lemma run_op_read cfg a st :
  mode cfg = readMode -> run_op cfg a st = validationJob cfg a st.
Proof. unfold run_op. by intros ->. Qed.

Lemma mutationJob_no_reads cfg a st :
  no_reads st -> no_reads (mutationJob cfg a st).2.
Proof.
  unfold no_reads, mutationJob.
  destruct (ans_GenMutateStmt a); [destruct (ans_Mutate a)|]; auto.
Qed.

Lemma validationJob_no_writes cfg a st :
  no_writes st -> no_writes (validationJob cfg a st).2.
Proof.
  unfold no_writes, validationJob. destruct (ans_Check a) as [[|msg]|]; auto.
Qed.

Lemma Merge_no_reads r sum : no_reads r -> no_reads sum -> no_reads (Merge r sum).
Proof. unfold no_reads, Merge. simpl. by intros [-> ->] [-> ->]. Qed.

Lemma Merge_no_writes r sum : no_writes r -> no_writes sum -> no_writes (Merge r sum).
Proof. unfold no_writes, Merge. simpl. by intros [-> ->] [-> ->]. Qed.

Lemma Forall_True {A : Type} (l : list A) : Forall (fun _ => True) l.
Proof. by apply Forall_forall. Qed.

Lemma write_mode_no_reads {Table : Type} cfg (tables : list Table) scripts schedule :
  mode cfg = writeMode ->
  sys_ok no_reads (fun _ => True) (run cfg (runJob cfg tables scripts) schedule).
Proof.
  intros Hmode. apply run_ok.
  - done.
  - intros a st _. rewrite run_op_write by done. apply mutationJob_no_reads.
  - apply Merge_no_reads.
  - apply runJob_ok; [done|]. apply Forall_forall. intros; apply Forall_True.
Qed.

Lemma read_mode_no_writes {Table : Type} cfg (tables : list Table) scripts schedule :
  mode cfg = readMode ->
  sys_ok no_writes (fun _ => True) (run cfg (runJob cfg tables scripts) schedule).
Proof.
  intros Hmode. apply run_ok.
  - done.
  - intros a st _. rewrite run_op_read by done. apply validationJob_no_writes.
  - apply Merge_no_writes.
  - apply runJob_ok; [done|]. apply Forall_forall. intros; apply Forall_True.
Qed.

Lemma final_report_in_reports sys r :
  final_report sys = Some r -> r ∈ reports (log sys).
Proof. apply last_Some_elem_of. Qed.

(** C8. Whatever the tables, the answers of the collaborators and the
    schedule, the totals of a run in write mode have [ReadOps] and
    [ReadErrors] equal to 0, and those of a run in read mode have
    [WriteOps] and [WriteErrors] equal to 0.  This holds of the final
    report, and so it does of every total printed before it and of the
    reporter's running total. *)
Theorem mode_exclusivity {Table : Type} cfg (tables : list Table) scripts schedule r :
  let sys := run cfg (runJob cfg tables scripts) schedule in
  final_report sys = Some r \/ r ∈ reports (log sys) \/ reporter sys = Some r ->
  (mode cfg = writeMode -> ReadOps r = 0 /\ ReadErrors r = 0) /\
  (mode cfg = readMode -> WriteOps r = 0 /\ WriteErrors r = 0).
Proof.
  intros sys Hr.
  assert (Hin : r ∈ reports (log sys) \/ reporter sys = Some r).
  { destruct Hr as [Hr|[Hr|Hr]]; auto using final_report_in_reports. }
  split; intros Hmode.
  - destruct (write_mode_no_reads cfg tables scripts schedule Hmode) as (Htot & _ & Hlog).
    destruct Hin as [Hin|Hin]; [|by apply Htot].
    by eapply Forall_forall in Hlog.
  - destruct (read_mode_no_writes cfg tables scripts schedule Hmode) as (Htot & _ & Hlog).
    destruct Hin as [Hin|Hin]; [|by apply Htot].
    by eapply Forall_forall in Hlog.
Qed.

Lemma mode_exclusivity_witness :
  ReadOps (mkStatus 1 1 0 0) = 0 /\ ReadErrors (mkStatus 1 1 0 0) = 0.
Proof.
  exact (proj1 (mode_exclusivity example_cfg example_tables example_scripts
                  example_schedule (mkStatus 1 1 0 0) (or_introl eq_refl)) eq_refl).
Defined.

(** ** Write mode with a [Mutate] that always fails *)

Lemma wrap_shift x y d :
  GoInt.wrap x = GoInt.wrap y -> GoInt.wrap (x + d) = GoInt.wrap (y + d).
Proof. intros H. rewrite <- (wrap_add_l x), <- (wrap_add_l y). by rewrite H. Qed.

Lemma sumZ_imap_insert {A : Type} (f : nat -> A -> Z) (l : list A) k x y :
  l !! k = Some x ->
  sumZ (imap f (<[k:=y]> l)) = sumZ (imap f l) - f k x + f k y.
Proof.
  revert f k. induction l as [|z l IH]; intros f k Hk; [done|].
  destruct k as [|k]; simpl in *.
  - injection Hk as ->. lia.
  - rewrite (IH (f ∘ S) k Hk). simpl. lia.
Qed.

Lemma attempted_insert scripts ws k w w' :
  ws !! k = Some w ->
  attempted scripts (<[k:=w']> ws) =
  attempted scripts ws + Z.of_nat (length (remaining w))
                       - Z.of_nat (length (remaining w')).
Proof.
  intros Hk. unfold attempted. rewrite (sumZ_imap_insert _ _ _ _ _ Hk). lia.
Qed.

Lemma unreported_insert ws k w w' :
  ws !! k = Some w ->
  unreported (<[k:=w']> ws) =
  unreported ws - sumZ (WriteErrors <$> held w) + sumZ (WriteErrors <$> held w').
Proof.
  intros Hk. unfold unreported.
  rewrite <- (imap_const _ ws), <- (imap_const _ (<[k:=w']> ws)).
  by rewrite (sumZ_imap_insert _ _ _ _ _ Hk).
Qed.

Lemma Job_body_failing cfg a l :
  mode cfg = writeMode ->
  mutate_always_fails a = true ->
  no_reads (testStatus l) ->
  let st := incrWriteErrors (incrWriteOps (testStatus l)) in
  iter_handoff (Job_body cfg a l) =
    (if Z.rem (i l) 1000 =? 0 then Some st else None) /\
  iter_next (Job_body cfg a l) =
    inl (mkLocals (GoInt.incr (i l)) (if Z.rem (i l) 1000 =? 0 then zeroStatus else st)).
Proof.
  intros Hmode Hfail [_ Hre]. unfold Job_body. rewrite run_op_write by done.
  unfold mutationJob, mutate_always_fails in *.
  destruct (ans_GenMutateStmt a) as [stmt|]; [|done].
  destruct (ans_Mutate a) as [err|]; [|done]. simpl.
  destruct (Z.rem (i l) 1000 =? 0); simpl.
  - by rewrite andb_false_r.
  - rewrite Hre. by rewrite andb_false_r.
Qed.

Lemma failing_op_ok cfg a st :
  mode cfg = writeMode ->
  mutate_always_fails a = true ->
  writes_all_failed st -> writes_all_failed (run_op cfg a st).2.
Proof.
  intros Hmode Hfail (Heq & Hr & Hnr). rewrite run_op_write by done.
  split_and!.
  - unfold mutationJob, mutate_always_fails in *.
    destruct (ans_GenMutateStmt a) as [stmt|]; [|done].
    destruct (ans_Mutate a) as [err|]; [|done]. simpl. by rewrite Heq.
  - unfold mutationJob.
    destruct (ans_GenMutateStmt a); [destruct (ans_Mutate a)|]; simpl;
      try apply wrap_in_range; done.
  - by apply mutationJob_no_reads.
Qed.

Lemma Merge_writes_all_failed r sum :
  writes_all_failed r -> writes_all_failed sum -> writes_all_failed (Merge r sum).
Proof.
  intros (Hr & _ & Hnr) (Hs & _ & Hns). split_and!.
  - simpl. by rewrite Hr, Hs.
  - apply wrap_in_range.
  - by apply Merge_no_reads.
Qed.

Lemma failing_run_ok {Table : Type} cfg (tables : list Table) scripts schedule :
  mode cfg = writeMode ->
  Forall (Forall (fun a => mutate_always_fails a = true)) scripts ->
  sys_ok writes_all_failed (fun a => mutate_always_fails a = true)
         (run cfg (runJob cfg tables scripts) schedule).
Proof.
  intros Hmode Hs. apply run_ok.
  - by split_and!.
  - intros a st. by apply failing_op_ok.
  - apply Merge_writes_all_failed.
  - apply runJob_ok; [|done]. by split_and!.
Qed.

Lemma deliver_no_reads cfg pt s sys total :
  reporter sys = Some total ->
  no_reads total -> no_reads s ->
  exists evs, reports evs = [] /\
    deliver cfg pt s sys =
    Some (mkSys (workers sys) (Some (Merge s total)) (workerCtx sys) (log sys ++ evs)).
Proof.
  intros Hrep Ht Hs. unfold deliver, reporter_round, add_log.
  cbn [reporter workers workerCtx log]. rewrite Hrep.
  destruct (Merge_no_reads _ _ Hs Ht) as [_ Hre].
  unfold reporter_step. rewrite Hre. cbn [Z.ltb Z.compare].
  exists ([Send pt s] ++ (if interactive cfg then [Suffix (Merge s total)] else [])).
  rewrite app_assoc.
  destruct (interactive cfg); cbn [cancels existsb]; by rewrite orb_false_r.
Qed.

Lemma step_count_ok cfg scripts sys act :
  mode cfg = writeMode ->
  sys_ok writes_all_failed (fun a => mutate_always_fails a = true) sys ->
  count_ok scripts sys ->
  count_ok scripts (step cfg sys act).
Proof.
  intros Hmode Hok Hcount total' Hrep'.
  destruct (reporter sys) as [total|] eqn:Hrep.
  2:{ destruct (step_reporter_gone cfg sys act Hrep) as [Hgone _]. congruence. }
  destruct (Hcount total Hrep) as (Hctx & Hloop & Hsum).
  destruct Hok as (Htot & Hws & _).
  destruct (Htot total Hrep) as (_ & _ & Hnr).
  destruct act as [k| |]; simpl in Hrep' |- *.
  - unfold worker_turn in *.
    destruct (workers sys !! k) as [w|] eqn:Hk; [|by simplify_eq].
    pose proof (Forall_lookup_1 _ _ _ _ Hws Hk) as [Hheld Hrem].
    pose proof (Forall_lookup_1 _ _ _ _ Hloop Hk) as Hin.
    destruct w as [l script|s next script|pending|]; [| |done..].
    + rewrite Hctx in *. destruct script as [|a script]; [by simplify_eq|].
      simpl in Hheld, Hrem.
      apply Forall_cons in Hrem as [Ha Hrem]. apply Forall_cons in Hheld as [(_ & _ & Hnl) _].
      destruct (Job_body_failing cfg a l Hmode Ha Hnl) as [Hh Hn].
      cbn [Job_iter] in *. rewrite Hh, Hn in *.
      destruct (Z.rem (i l) 1000 =? 0); simpl in Hrep' |- *.
      * assert (total' = total) as -> by congruence.
        split_and!; [done|by apply Forall_insert|].
        rewrite (unreported_insert _ _ _ _ Hk), (attempted_insert _ _ _ _ _ Hk).
        cbn [held remaining fmap list_fmap sumZ foldr length WriteErrors
             incrWriteErrors incrWriteOps zeroStatus testStatus].
        unfold GoInt.incr.
        etrans; [|etrans; [apply (wrap_shift _ _ 1 Hsum)|f_equal; lia]].
        transitivity (GoInt.wrap (WriteErrors total + unreported (workers sys)
                                  - WriteErrors (testStatus l)
                                  + GoInt.wrap (WriteErrors (testStatus l) + 1)));
          [f_equal; lia|].
        rewrite wrap_add_r. f_equal. lia.
      * assert (total' = total) as -> by congruence.
        split_and!; [done|by apply Forall_insert|].
        rewrite (unreported_insert _ _ _ _ Hk), (attempted_insert _ _ _ _ _ Hk).
        cbn [held remaining fmap list_fmap sumZ foldr length WriteErrors
             incrWriteErrors incrWriteOps zeroStatus testStatus].
        unfold GoInt.incr.
        etrans; [|etrans; [apply (wrap_shift _ _ 1 Hsum)|f_equal; lia]].
        transitivity (GoInt.wrap (WriteErrors total + unreported (workers sys)
                                  - WriteErrors (testStatus l)
                                  + GoInt.wrap (WriteErrors (testStatus l) + 1)));
          [f_equal; lia|].
        rewrite wrap_add_r. f_equal. lia.
    + destruct next as [l'|x]; [|done].
      simpl in Hheld. apply Forall_cons in Hheld as [(_ & _ & Hns) _].
      destruct (deliver_no_reads cfg InLoop s sys total Hrep Hnr Hns) as (evs & _ & Hd).
      rewrite Hd in *. simpl in Hrep' |- *. injection Hrep' as <-.
      split_and!; [done|by apply Forall_insert|].
      rewrite (unreported_insert _ _ _ _ Hk), (attempted_insert _ _ _ _ _ Hk).
      cbn [held remaining fmap list_fmap sumZ foldr length WriteErrors Merge].
      unfold GoInt.add. rewrite wrap_add_l.
      transitivity (GoInt.wrap (attempted scripts (workers sys))); [|f_equal; lia].
      rewrite <- Hsum. f_equal. lia.
  - unfold timer_turn, reporter_round in Hrep'. rewrite Hrep in Hrep'. done.
  - unfold coordinator_turn, reporter_round in *. rewrite Hrep in *.
    destruct (forallb is_exited (workers sys)); [done|].
    assert (total' = total) as -> by congruence. done.
Qed.

Lemma sumZ_zero (zs : list Z) : Forall (fun z => z = 0) zs -> sumZ zs = 0.
Proof. induction 1 as [|z zs -> _ IH]; [done|]. simpl. lia. Qed.

Lemma runJob_count_ok {Table : Type} cfg (tables : list Table) scripts :
  count_ok scripts (runJob cfg tables scripts).
Proof.
  intros total [= <-]. simpl. split_and!; [done| |].
  - apply Forall_lookup. intros k w Hk.
    by apply list_lookup_imap_Some in Hk as (tp & _ & ->).
  - f_equal. rewrite Z.add_0_l. unfold unreported, attempted.
    rewrite !sumZ_zero; [done| |].
    + apply Forall_lookup. intros k z Hk.
      apply list_lookup_imap_Some in Hk as (w & Hw & ->).
      apply list_lookup_imap_Some in Hw as (tp & _ & ->). simpl. lia.
    + apply Forall_lookup. intros k z Hk.
      apply list_lookup_fmap_Some in Hk as (w & -> & Hw).
      by apply list_lookup_imap_Some in Hw as (tp & _ & ->).
Qed.

Lemma failing_run_count_ok {Table : Type} cfg (tables : list Table) scripts schedule :
  mode cfg = writeMode ->
  Forall (Forall (fun a => mutate_always_fails a = true)) scripts ->
  count_ok scripts (run cfg (runJob cfg tables scripts) schedule).
Proof.
  intros Hmode Hs.
  induction schedule as [|act schedule IH] using rev_ind.
  - apply runJob_count_ok.
  - rewrite run_snoc. apply step_count_ok; [done| |done].
    by apply failing_run_ok.
Qed.

(** When the reporter stops in a system that has counted no read error,
    what it prints last is its running total. *)
Lemma step_reporter_stops cfg sys act total :
  sys_ok no_reads (fun _ => True) sys ->
  reporter sys = Some total ->
  reporter (step cfg sys act) = None ->
  reports (log (step cfg sys act)) = reports (log sys) ++ [total].
Proof.
  intros (Htot & Hws & _) Hrep. specialize (Htot total Hrep).
  destruct act as [k| |]; simpl.
  - unfold worker_turn.
    destruct (workers sys !! k) as [w|] eqn:Hk; [|congruence].
    pose proof (Forall_lookup_1 _ _ _ _ Hws Hk) as [Hheld _].
    destruct w as [l script|s next script|pending|]; [| | |congruence].
    + destruct (workerCtx sys).
      { simpl. congruence. }
      destruct script as [|a script]; [congruence|]. cbn [Job_iter].
      destruct (iter_handoff (Job_body cfg a l)); [simpl; congruence|].
      destruct (iter_next (Job_body cfg a l)) as [l'|[|p]]; simpl; congruence.
    + assert (Hs : no_reads s).
      { simpl in Hheld. by destruct next as [l'|[|p]]; apply Forall_cons in Hheld as [? _]. }
      destruct (deliver_no_reads cfg InLoop s sys total Hrep Htot Hs) as (evs & _ & ->).
      destruct next as [l'|[|p]]; simpl; congruence.
    + assert (Hs : no_reads pending).
      { simpl in Hheld. by apply Forall_cons in Hheld as [? _]. }
      destruct (deliver_no_reads cfg AfterLoop pending sys total Hrep Htot Hs)
        as (evs & _ & ->).
      simpl; congruence.
  - unfold timer_turn, reporter_round. rewrite Hrep. simpl. intros _.
    rewrite reports_app. simpl. by rewrite reporter_deferred_reports.
  - unfold coordinator_turn, reporter_round. rewrite Hrep.
    destruct (forallb is_exited (workers sys)); [|congruence]. simpl. intros _.
    rewrite reports_app. simpl. by rewrite reporter_deferred_reports.
Qed.

Lemma sys_ok_weaken (P P' : Status -> Prop) (Q Q' : Answers -> Prop) sys :
  (forall s, P s -> P' s) -> (forall a, Q a -> Q' a) ->
  sys_ok P Q sys -> sys_ok P' Q' sys.
Proof.
  intros HP HQ (Htot & Hws & Hlog). split_and!.
  - intros total Hrep. by apply HP, Htot.
  - eapply Forall_impl; [done|]. intros w [Hh Hr]. split.
    + by eapply Forall_impl.
    + by eapply Forall_impl.
  - by eapply Forall_impl.
Qed.

(** C1, as the code has it.  In write mode, with a generator that always
    succeeds and a session whose [Mutate] always fails, the totals printed
    when the reporter stops are its running total and remain the final
    report; in them [WriteOps] equals [WriteErrors], since the attempt is
    counted before [Mutate] is called, and this number is that of the
    mutations attempted up to then less the errors still in the workers'
    own counters, not handed off: the mutations whose counters reached the
    reporter, as an [int]. *)
Theorem failing_writes_final_report {Table : Type} cfg (tables : list Table)
    scripts schedule act rest total :
  mode cfg = writeMode ->
  Forall (Forall (fun a => mutate_always_fails a = true)) scripts ->
  let sys := run cfg (runJob cfg tables scripts) schedule in
  reporter sys = Some total ->
  reporter (step cfg sys act) = None ->
  final_report (run cfg (step cfg sys act) rest) = Some total /\
  WriteOps total = WriteErrors total /\
  WriteErrors total =
    GoInt.wrap (attempted scripts (workers sys) - unreported (workers sys)).
Proof.
  intros Hmode Hs sys Hrep Hstop.
  pose proof (failing_run_ok cfg tables scripts schedule Hmode Hs) as Hok.
  pose proof (failing_run_count_ok cfg tables scripts schedule Hmode Hs) as Hcount.
  fold sys in Hok, Hcount.
  destruct (Hcount total Hrep) as (_ & _ & Hsum).
  destruct Hok as (Htot & Hws & Hlog).
  destruct (Htot total Hrep) as (Heq & Hrange & Hnr).
  split_and!; [|done|].
  - unfold final_report.
    destruct (run_reporter_gone cfg _ rest Hstop) as [_ ->].
    rewrite (step_reporter_stops cfg sys act total); [by rewrite last_snoc| |done..].
    apply (sys_ok_weaken writes_all_failed _ (fun a => mutate_always_fails a = true)); try done.
    by intros s (_ & _ & ?).
  - rewrite <- (wrap_small _ Hrange).
    replace (WriteErrors total)
      with (WriteErrors total + unreported (workers sys) + - unreported (workers sys)) at 1 by lia.
    rewrite <- wrap_add_l, Hsum, wrap_add_l. f_equal.
Qed.

Lemma failing_writes_final_report_witness :
  final_report
    (run example_cfg
       (step example_cfg
          (run example_cfg (runJob example_cfg example_tables example_scripts)
               [WorkerTurn 0; WorkerTurn 0; WorkerTurn 0])
          TimerFires)
       [WorkerTurn 0; WorkerTurn 1; WorkersWaited])
  = Some (mkStatus 1 1 0 0) /\
  WriteOps (mkStatus 1 1 0 0) = WriteErrors (mkStatus 1 1 0 0) /\
  WriteErrors (mkStatus 1 1 0 0) = GoInt.wrap (2 - 1).
Proof.
  assert (Hs : Forall (Forall (fun a => mutate_always_fails a = true)) example_scripts)
    by (repeat constructor).
  exact (failing_writes_final_report example_cfg example_tables example_scripts
           [WorkerTurn 0; WorkerTurn 0; WorkerTurn 0] TimerFires
           [WorkerTurn 0; WorkerTurn 1; WorkersWaited] (mkStatus 1 1 0 0)
           eq_refl Hs eq_refl eq_refl).
Defined.

(** C1, read literally, fails: after one handed-off mutation and one more
    still in the worker's counter, the final report shows one write
    operation and one write error, where two mutations were attempted. *)
Lemma failing_writes_report_fails :
  ~ failing_writes_report example_cfg example_tables example_scripts example_schedule.
Proof.
  intros Hclaim. destruct (Hclaim (mkStatus 1 1 0 0) eq_refl) as [Hops _].
  discriminate Hops.
Qed.


(** * Further properties of the code *)

(** ** What a worker reports *)

Lemma sent_app evs1 evs2 : sent (evs1 ++ evs2) = sent evs1 ++ sent evs2.
Proof. apply omap_app. Qed.

Lemma sent_prints (out : list Line) : sent (Print <$> out) = [].
Proof. induction out as [|l out IH]; [done|]. exact IH. Qed.

Lemma sent_iter_events it :
  sent (iter_events it) = if iter_handoff it is Some s then [s] else [].
Proof.
  unfold iter_events. rewrite sent_app, sent_prints.
  by destruct (iter_handoff it).
Qed.

Lemma merge_all_snoc total rs r :
  merge_all total (rs ++ [r]) = Merge r (merge_all total rs).
Proof. unfold merge_all. by rewrite foldl_app. Qed.

Lemma merge_all_app total rs1 rs2 :
  merge_all total (rs1 ++ rs2) = merge_all (merge_all total rs1) rs2.
Proof. unfold merge_all. by rewrite foldl_app. Qed.

Lemma mutationJob_additive cfg a st total :
  Merge (mutationJob cfg a st).2 total
  = Merge (mutationJob cfg a zeroStatus).2 (Merge st total).
Proof.
  unfold mutationJob.
  destruct (ans_GenMutateStmt a); [destruct (ans_Mutate a)|];
    unfold Merge; cbn; f_equal;
    unfold GoInt.add, GoInt.incr; rewrite ?wrap_add_l, ?wrap_add_r;
    f_equal; lia.
Qed.

Lemma validationJob_additive cfg a st total :
  Merge (validationJob cfg a st).2 total
  = Merge (validationJob cfg a zeroStatus).2 (Merge st total).
Proof.
  unfold validationJob.
  destruct (ans_Check a) as [[|msg]|];
    unfold Merge; cbn; f_equal;
    unfold GoInt.add, GoInt.incr; rewrite ?wrap_add_l, ?wrap_add_r;
    f_equal; lia.
Qed.

Lemma run_op_additive cfg a st total :
  Merge (run_op cfg a st).2 total = Merge (op_delta cfg a) (Merge st total).
Proof.
  unfold op_delta, run_op.
  repeat case_match; auto using mutationJob_additive, validationJob_additive.
Qed.

Lemma Merge_zero_Merge r total : Merge zeroStatus (Merge r total) = Merge r total.
Proof.
  unfold Merge; cbn. f_equal; unfold GoInt.add;
    rewrite Z.add_0_r; apply wrap_small, wrap_in_range.
Qed.

Lemma Job_loop_conservation cfg answers l evs l' total :
  Job_loop cfg (Proceed <$> answers) l = (evs, inl l') ->
  merge_all total (sent evs ++ [testStatus l'])
  = merge_all (Merge (testStatus l) total) (op_delta cfg <$> answers).
Proof.
  revert l evs total. induction answers as [|a answers IH]; intros l evs total.
  - intros [= <- <-]. reflexivity.
  - cbn [fmap list_fmap Job_loop Job_iter].
    pose proof (sent_iter_events (Job_body cfg a l)) as Hsent.
    pose proof (Job_body_handoff cfg a l) as Hh.
    destruct (iter_next (Job_body cfg a l)) as [l1|x] eqn:Hnext; [|done].
    destruct (Job_loop cfg (Proceed <$> answers) l1) as [evs1 r1] eqn:Hloop.
    intros [= <- ->]. pose proof (fun total => IH _ _ total Hloop) as IH'.
    rewrite sent_app, Hsent, <- app_assoc.
    cbn [fmap list_fmap]. unfold merge_all at 2. cbn [foldl]. fold (merge_all).
    rewrite <- run_op_additive.
    destruct (iter_handoff (Job_body cfg a l)) as [s|] eqn:Hhand.
    + pose proof (Job_body_reset cfg a l s Hhand) as Hreset.
      rewrite Hnext in Hreset. injection Hreset as ->.
      destruct (Z.rem (i l) 1000 =? 0); [|done]. injection Hh as ->.
      cbn [app]. unfold merge_all at 1. cbn [foldl]. fold merge_all.
      rewrite IH'. cbn [testStatus]. by rewrite Merge_zero_Merge.
    + cbn [app]. rewrite IH'. f_equal. f_equal.
      unfold Job_body in Hnext, Hhand.
      destruct (run_op cfg a (testStatus l)) as [out st]; cbn in *.
      destruct (Z.rem (i l) 1000 =? 0); cbn in *.
      { rewrite andb_false_r in Hhand. done. }
      destruct (failFast cfg && (0 <? ReadErrors st)); cbn in Hnext; by simplify_eq.
Qed.

Lemma Job_loop_app cfg ticks1 ticks2 l :
  Job_loop cfg (ticks1 ++ ticks2) l =
  match Job_loop cfg ticks1 l with
  | (evs1, inl l1) =>
      let '(evs2, r) := Job_loop cfg ticks2 l1 in (evs1 ++ evs2, r)
  | (evs1, inr x) => (evs1, inr x)
  end.
Proof.
  revert l. induction ticks1 as [|t ticks1 IH]; intros l; cbn [app Job_loop].
  - by destruct (Job_loop cfg ticks2 l).
  - destruct (iter_next (Job_iter cfg t l)) as [l1|x]; [|done].
    rewrite IH. destruct (Job_loop cfg ticks1 l1) as [evs1 [l2|x]]; [|done].
    destruct (Job_loop cfg ticks2 l2) as [evs2 r]. by rewrite app_assoc.
Qed.

(** X1. Batching neither loses nor double counts: for a worker that is
    still in its loop, the counters it has sent so far together with the
    one it holds merge to exactly the sum of the outcomes of the operations
    it has run. *)
Theorem Job_counts_conserved cfg answers evs l :
  Job_loop cfg (Proceed <$> answers) initLocals = (evs, inl l) ->
  merge_all zeroStatus (sent evs ++ [testStatus l])
  = merge_all zeroStatus (op_delta cfg <$> answers).
Proof.
  intros Hloop. by rewrite (Job_loop_conservation _ _ _ _ _ zeroStatus Hloop).
Qed.

Lemma Job_counts_conserved_witness :
  merge_all zeroStatus ([mkStatus 1 1 0 0] ++ [mkStatus 1 1 0 0])
  = merge_all zeroStatus [mkStatus 1 1 0 0; mkStatus 1 1 0 0].
Proof.
  exact (Job_counts_conserved example_cfg [failing_answers; failing_answers]
           _ _ eq_refl).
Defined.

(** X2. A worker that leaves its loop by the local fail-fast exit and
    whose send after the loop is received has reported everything: the
    counters it sent, that one included, merge to the sum of the outcomes
    of all its operations.  If that send is never received, the worker
    never calls [wg.Done()], and what it has sent falls short of that sum
    by exactly the counter it holds. *)
Theorem Job_fail_fast_reports_all cfg answers a evs l pending :
  Job_loop cfg (Proceed <$> answers) initLocals = (evs, inl l) ->
  iter_next (Job_body cfg a l) = inr (ByBreak pending) ->
  merge_all zeroStatus (sent (Job cfg true (Proceed <$> answers ++ [a])))
  = merge_all zeroStatus (op_delta cfg <$> answers ++ [a]) /\
  merge_all zeroStatus (sent (Job cfg false (Proceed <$> answers ++ [a])) ++ [pending])
  = merge_all zeroStatus (op_delta cfg <$> answers ++ [a]) /\
  (WorkersDone ∉ Job cfg false (Proceed <$> answers ++ [a])).
Proof.
  intros Hloop Hbreak.
  pose proof (Job_loop_conservation _ _ _ _ _ zeroStatus Hloop) as Hcons.
  rewrite merge_all_snoc in Hcons.
  change (Merge (testStatus initLocals) zeroStatus) with zeroStatus in Hcons.
  pose proof (Job_loop_in_loop cfg (Proceed <$> answers) initLocals) as [_ Hdone].
  rewrite Hloop in Hdone. cbn [fst] in Hdone.
  pose proof (iter_events_in_loop (Job_body cfg a l)) as [_ Hdone'].
  assert (Hhand : iter_handoff (Job_body cfg a l) = None).
  { destruct (iter_handoff (Job_body cfg a l)) as [s|] eqn:Hhand; [|done].
    apply Job_body_reset in Hhand. congruence. }
  assert (Hpending : pending = (run_op cfg a (testStatus l)).2).
  { unfold Job_body in Hbreak, Hhand.
    destruct (run_op cfg a (testStatus l)) as [out st]; cbn in *.
    destruct (Z.rem (i l) 1000 =? 0); cbn in *.
    { rewrite andb_false_r in Hbreak. done. }
    destruct (failFast cfg && (0 <? ReadErrors st)); cbn in Hbreak; by simplify_eq. }
  assert (Htotal : Merge pending (merge_all zeroStatus (sent evs))
                   = merge_all zeroStatus (op_delta cfg <$> answers ++ [a])).
  { rewrite fmap_app. cbn [fmap list_fmap]. rewrite merge_all_snoc.
    by rewrite <- Hcons, <- run_op_additive, Hpending. }
  assert (Hjob : forall received,
             Job cfg received (Proceed <$> answers ++ [a])
             = (evs ++ iter_events (Job_body cfg a l))
               ++ exit_events received (ByBreak pending)).
  { intros received. unfold Job. rewrite fmap_app, Job_loop_app, Hloop.
    cbn [fmap list_fmap Job_loop Job_iter]. by rewrite Hbreak. }
  assert (Hsent : sent (evs ++ iter_events (Job_body cfg a l)) = sent evs).
  { by rewrite sent_app, sent_iter_events, Hhand, app_nil_r. }
  split_and!.
  - rewrite Hjob, sent_app, Hsent. cbn [exit_events].
    change (sent [Send AfterLoop pending; WorkersDone]) with [pending].
    by rewrite merge_all_snoc.
  - rewrite Hjob, sent_app, Hsent. cbn [exit_events sent omap]. rewrite app_nil_r.
    by rewrite merge_all_snoc.
  - rewrite Hjob. cbn [exit_events]. rewrite app_nil_r, elem_of_app. tauto.
Qed.

Lemma Job_fail_fast_reports_all_witness :
  merge_all zeroStatus
    (sent (Job failfast_cfg true (Proceed <$> [matching_answers] ++ [diverging_answers])))
  = merge_all zeroStatus
      (op_delta failfast_cfg <$> [matching_answers] ++ [diverging_answers]).
Proof.
  exact (proj1 (Job_fail_fast_reports_all failfast_cfg [matching_answers]
                  diverging_answers _ _ (mkStatus 0 0 0 1) eq_refl eq_refl)).
Defined.

Lemma run_op_fields cfg a st b :
  0 <= b < GoInt.max_int ->
  fields_within b st -> fields_within (b + 1) (run_op cfg a st).2.
Proof.
  intros Hb (Hwo & Hwe & Hro & Hre).
  assert (Hincr : forall x, 0 <= x <= b -> 0 <= GoInt.incr x <= b + 1).
  { intros x Hx. unfold GoInt.incr. rewrite wrap_small; [lia|].
    unfold GoInt.in_range, GoInt.min_int, GoInt.max_int in *. lia. }
  assert (Hkeep : forall x, 0 <= x <= b -> 0 <= x <= b + 1) by (intros; lia).
  unfold run_op, mutationJob, validationJob, fields_within.
  repeat case_match; cbn; auto 10.
Qed.

Lemma Job_loop_pending_bound cfg answers l evs l' :
  Job_loop cfg (Proceed <$> answers) l = (evs, inl l') ->
  0 <= i l ->
  i l + Z.of_nat (length answers) <= GoInt.max_int ->
  fields_within ((i l + 999) `mod` 1000) (testStatus l) ->
  fields_within ((i l' + 999) `mod` 1000) (testStatus l').
Proof.
  revert l evs. induction answers as [|a answers IH]; intros l evs.
  - by intros [= <- <-].
  - cbn [fmap list_fmap Job_loop Job_iter length].
    destruct (iter_next (Job_body cfg a l)) as [l1|x] eqn:Hnext; [|done].
    destruct (Job_loop cfg (Proceed <$> answers) l1) as [evs1 r1] eqn:Hloop.
    intros [= <- ->] H0 Hmax Hb.
    assert (Hincr : GoInt.incr (i l) = i l + 1).
    { apply wrap_small. unfold GoInt.in_range, GoInt.min_int, GoInt.max_int in *. lia. }
    assert (Hl1 : i l1 = i l + 1 /\ fields_within ((i l1 + 999) `mod` 1000) (testStatus l1)).
    { pose proof (run_op_fields cfg a (testStatus l) ((i l + 999) `mod` 1000)) as Hop.
      unfold Job_body in Hnext.
      destruct (run_op cfg a (testStatus l)) as [out st]; cbn in *.
      assert (Hst : fields_within ((i l + 999) `mod` 1000 + 1) st).
      { apply Hop; [|done]. unfold GoInt.max_int.
        Z.to_euclidean_division_equations; lia. }
      rewrite Z.rem_mod_nonneg in Hnext by lia.
      destruct (Z.eqb_spec (i l `mod` 1000) 0) as [Hm|Hm]; cbn in Hnext.
      - rewrite andb_false_r in Hnext. injection Hnext as <-. cbn.
        split; [lia|]. rewrite Hincr.
        replace ((i l + 1 + 999) `mod` 1000) with 0
          by (Z.to_euclidean_division_equations; lia).
        unfold fields_within; cbn; lia.
      - destruct (failFast cfg && (0 <? ReadErrors st)); [done|].
        injection Hnext as <-. cbn. split; [lia|]. rewrite Hincr.
        replace ((i l + 1 + 999) `mod` 1000) with ((i l + 999) `mod` 1000 + 1)
          by (Z.to_euclidean_division_equations; lia).
        done. }
    destruct Hl1 as [Hi1 Hb1]. apply (IH _ _ Hloop); [lia|lia|done].
Qed.

(** X3. A worker that finds the context cancelled after [n] iterations
    signals completion without sending the counter it holds.  What is
    dropped is small: every field of that counter is between 0 and
    [(n + 999) mod 1000], so at most 999. *)
Theorem Job_cancel_drops_pending cfg received answers evs l :
  Job_loop cfg (Proceed <$> answers) initLocals = (evs, inl l) ->
  Z.of_nat (length answers) <= GoInt.max_int ->
  Job cfg received ((Proceed <$> answers) ++ [Cancelled]) = evs ++ [WorkersDone] /\
  sent (Job cfg received ((Proceed <$> answers) ++ [Cancelled])) = sent evs /\
  fields_within ((Z.of_nat (length answers) + 999) `mod` 1000) (testStatus l) /\
  fields_within 999 (testStatus l).
Proof.
  intros Hloop Hmax.
  assert (Htrace : Job cfg received ((Proceed <$> answers) ++ [Cancelled])
                   = evs ++ [WorkersDone]).
  { unfold Job. rewrite Job_loop_app, Hloop. cbn. by rewrite app_nil_r. }
  pose proof (Job_loop_schedule cfg (Proceed <$> answers) initLocals evs l Hloop) as Hi.
  rewrite length_fmap in Hi. change (i initLocals) with 0 in Hi.
  destruct Hi as [Hi _]; [lia..|].
  pose proof (Job_loop_pending_bound cfg answers initLocals evs l Hloop) as Hb.
  change (i initLocals) with 0 in Hb. rewrite Hi, !Z.add_0_l in Hb.
  assert (Hw : fields_within ((Z.of_nat (length answers) + 999) `mod` 1000) (testStatus l)).
  { apply Hb; [lia|lia|]. change (999 `mod` 1000) with 999.
    unfold fields_within; cbn; lia. }
  split_and!; [done| |done|].
  - rewrite Htrace, sent_app. cbn. by rewrite app_nil_r.
  - pose proof (Z.mod_pos_bound (Z.of_nat (length answers) + 999) 1000 ltac:(lia)).
    unfold fields_within in *. lia.
Qed.

Lemma Job_cancel_drops_pending_witness :
  Job example_cfg true ((Proceed <$> [failing_answers; failing_answers]) ++ [Cancelled])
  = [Print (PrintMutateFailed (mkStmt "INSERT" []) (ErrOther "write failed"));
     Send InLoop (mkStatus 1 1 0 0);
     Print (PrintMutateFailed (mkStmt "INSERT" []) (ErrOther "write failed"))]
    ++ [WorkersDone] /\
  fields_within 999 (mkStatus 1 1 0 0).
Proof.
  assert (Hmax : Z.of_nat (length [failing_answers; failing_answers]) <= GoInt.max_int)
    by (vm_compute; discriminate).
  destruct (Job_cancel_drops_pending example_cfg true
              [failing_answers; failing_answers] _ _ eq_refl Hmax)
    as (Htrace & _ & _ & Hb).
  split; [exact Htrace|exact Hb].
Defined.

Lemma Job_body_write_next cfg a l :
  mode cfg = writeMode ->
  no_reads (testStatus l) ->
  exists l1, iter_next (Job_body cfg a l) = inl l1 /\ no_reads (testStatus l1).
Proof.
  intros Hmode Hnr.
  pose proof (Job_body_ok cfg no_reads (fun _ => True)) as Hok.
  specialize (Hok ltac:(done)).
  specialize (Hok (fun a st _ H =>
    eq_ind_r (fun p => no_reads p.2) (mutationJob_no_reads cfg a st H)
             (run_op_write cfg a st Hmode))).
  specialize (Hok a l [] I Hnr (Forall_nil_2 _)).
  destruct (Job_body_next cfg a l) as [[st Hst]|(p & Hp & _ & Hpos)].
  - exists (mkLocals (GoInt.incr (i l)) st). split; [done|].
    rewrite Hst in Hok. destruct (iter_handoff (Job_body cfg a l)).
    + destruct Hok as [Hheld _]. cbn in Hheld.
      by apply Forall_cons in Hheld as [_ [? _]%Forall_cons].
    + destruct Hok as [Hheld _]. cbn in Hheld. by apply Forall_cons in Hheld as [? _].
  - rewrite Hp in Hok. destruct (iter_handoff (Job_body cfg a l)) as [s|] eqn:Hh.
    + apply Job_body_reset in Hh. congruence.
    + destruct Hok as [Hheld _]. cbn in Hheld.
      apply Forall_cons in Hheld as [[_ Hre] _]. lia.
Qed.

Lemma Job_loop_write_running cfg answers l :
  mode cfg = writeMode ->
  no_reads (testStatus l) ->
  exists l', (Job_loop cfg (Proceed <$> answers) l).2 = inl l'.
Proof.
  intros Hmode. revert l. induction answers as [|a answers IH]; intros l Hnr.
  - by exists l.
  - cbn [fmap list_fmap Job_loop Job_iter].
    destruct (Job_body_write_next cfg a l Hmode Hnr) as (l1 & -> & Hnr1).
    destruct (IH l1 Hnr1) as [l' Hl'].
    destruct (Job_loop cfg (Proceed <$> answers) l1) as [evs r]. by exists l'.
Qed.

(** X4. Write errors never stop a worker.  As long as the context is not
    cancelled, a worker in write mode stays in its loop whether or not
    [failFast] is set, and so does a worker in any mode when [failFast] is
    not set: it never reaches its [wg.Done()]. *)
Theorem Job_never_breaks cfg received answers :
  mode cfg = writeMode \/ failFast cfg = false ->
  Job_exit cfg (Proceed <$> answers) = None /\
  WorkersDone ∉ Job cfg received (Proceed <$> answers).
Proof.
  intros Hcase.
  assert (Hrun : exists l', (Job_loop cfg (Proceed <$> answers) initLocals).2 = inl l').
  { destruct Hcase as [Hmode|Hff].
    - by apply Job_loop_write_running.
    - pose proof (Job_loop_exit cfg (Proceed <$> answers) initLocals) as Hexit.
      destruct ((Job_loop cfg (Proceed <$> answers) initLocals).2) as [l'|x]; [by exists l'|].
      specialize (Hexit x eq_refl). destruct x as [|p].
      + apply list_elem_of_fmap in Hexit as (a & Ha & _). done.
      + destruct Hexit as [Hff' _]. congruence. }
  destruct Hrun as [l' Hl'].
  pose proof (Job_loop_in_loop cfg (Proceed <$> answers) initLocals) as [_ Hdone].
  unfold Job_exit, Job.
  destruct (Job_loop cfg (Proceed <$> answers) initLocals) as [evs r]; cbn in *.
  by subst r.
Qed.

Lemma Job_never_breaks_witness :
  Job_exit (mkConfig 2 50 1 false writeMode true true)
           (Proceed <$> [failing_answers; failing_answers]) = None /\
  WorkersDone ∉ Job (mkConfig 2 50 1 false writeMode true true) true
                    (Proceed <$> [failing_answers; failing_answers]).
Proof.
  exact (Job_never_breaks (mkConfig 2 50 1 false writeMode true true) true
           [failing_answers; failing_answers] (or_introl eq_refl)).
Defined.

(** ** How a step changes the system *)

Lemma step_has_kind cfg sys act : step_kind cfg sys (step cfg sys act).
Proof.
  destruct sys as [ws rep ctx lg].
  destruct act as [k| |]; cbn [step].
  - unfold worker_turn. cbn [workers workerCtx].
    destruct (ws !! k) as [w|] eqn:Hk; [|constructor].
    destruct w as [l script|s next script|pending|]; [| | |constructor].
    + destruct ctx.
      { exact (step_local cfg (mkSys ws rep true lg) k (Running l script) Exited []
                 Hk eq_refl (Forall_nil_2 _)). }
      destruct script as [|a script]; [constructor|]. cbn [Job_iter].
      pose proof (run_op_out cfg a (testStatus l)) as Hout.
      assert (Hd : Forall is_diagnostic (iter_out (Job_body cfg a l))).
      { unfold Job_body. destruct (run_op cfg a (testStatus l)) as [out st]; cbn in *.
        repeat case_match; simplify_eq; done. }
      pose proof (fun w' => step_local cfg (mkSys ws rep false lg) k
                    (Running l (a :: script)) w' _ Hk eq_refl Hd) as Hkind.
      destruct (iter_handoff (Job_body cfg a l)) as [s|] eqn:Hh.
      * specialize (Hkind (Handoff s (iter_next (Job_body cfg a l)) script)).
        cbn in Hkind. rewrite app_nil_r in Hkind. exact Hkind.
      * destruct (Job_body_next cfg a l) as [[st ->]|(p & -> & _)].
        -- specialize (Hkind (Running (mkLocals (GoInt.incr (i l)) st) script)).
           cbn in Hkind. rewrite app_nil_r in Hkind. exact Hkind.
        -- specialize (Hkind (Flushing p)).
           cbn in Hkind. rewrite app_nil_r in Hkind. exact Hkind.
    + unfold deliver, reporter_round, add_log. cbn [reporter workers workerCtx log].
      destruct rep as [testRes|]; [|constructor].
      pose proof (step_deliver cfg (mkSys ws (Some testRes) ctx lg) k _
                    match next with
                    | inl l' => Running l' script
                    | inr ByReturn => Exited
                    | inr (ByBreak p) => Flushing p
                    end InLoop s testRes Hk eq_refl eq_refl) as Hkind.
      cbn [reporter workers workerCtx log] in Hkind.
      destruct (reporter_step cfg (Recv s) testRes) as [evs nxt].
      cbn [fst snd] in Hkind.
      destruct next as [l'|[|p]];
        unfold after_iter, set_worker, add_log;
        cbn [reporter workers workerCtx log done_mark is_exited] in *;
        rewrite <- ?app_assoc; rewrite ?app_nil_r in Hkind; exact Hkind.
    + unfold deliver, reporter_round, add_log. cbn [reporter workers workerCtx log].
      destruct rep as [testRes|]; [|constructor].
      pose proof (step_deliver cfg (mkSys ws (Some testRes) ctx lg) k _ Exited
                    AfterLoop pending testRes Hk eq_refl eq_refl) as Hkind.
      cbn [reporter workers workerCtx log] in Hkind.
      destruct (reporter_step cfg (Recv pending) testRes) as [evs nxt].
      unfold set_worker, add_log.
      cbn [fst snd reporter workers workerCtx log done_mark is_exited] in *.
      rewrite <- ?app_assoc. exact Hkind.
  - unfold timer_turn, reporter_round. cbn [reporter workers workerCtx log].
    destruct rep as [testRes|]; [|constructor].
    pose proof (step_round cfg (mkSys ws (Some testRes) ctx lg) TimerC testRes
                  (or_introl eq_refl) eq_refl) as Hkind.
    cbn [reporter workers workerCtx log] in Hkind.
    by destruct (reporter_step cfg TimerC testRes).
  - unfold coordinator_turn, reporter_round. cbn [reporter workers workerCtx log].
    destruct (forallb is_exited ws); [|constructor].
    destruct rep as [testRes|]; [|constructor].
    pose proof (step_round cfg (mkSys ws (Some testRes) ctx lg) ReporterCtxDone testRes
                  (or_intror eq_refl) eq_refl) as Hkind.
    cbn [reporter workers workerCtx log] in Hkind.
    by destruct (reporter_step cfg ReporterCtxDone testRes).
Qed.

Lemma reporter_step_goes_on cfg sel testRes total :
  (reporter_step cfg sel testRes).2 = Some total ->
  total = round_total sel testRes /\
  (exists res, sel = Recv res) /\
  (failFast cfg = true -> ReadErrors total <= 0) /\
  cancels (reporter_step cfg sel testRes).1 = false /\
  count_events is_cancel (reporter_step cfg sel testRes).1 = 0%nat /\
  count_events is_reporter_done (reporter_step cfg sel testRes).1 = 0%nat.
Proof.
  destruct sel as [| |res]; [done..|]. unfold reporter_step, round_total.
  destruct (Z.ltb_spec 0 (ReadErrors (Merge res testRes))) as [Hpos|Hle];
    destruct (failFast cfg) eqn:Hff, (interactive cfg); cbn; intros [= <-];
    split_and!; eauto; done.
Qed.

Lemma reporter_step_returns cfg sel testRes :
  (reporter_step cfg sel testRes).2 = None ->
  last (reports (reporter_step cfg sel testRes).1) = Some (round_total sel testRes) /\
  count_events is_cancel (reporter_step cfg sel testRes).1
  = (if cancels (reporter_step cfg sel testRes).1 then 1 else 0)%nat /\
  count_events is_reporter_done (reporter_step cfg sel testRes).1 = 1%nat.
Proof.
  destruct sel as [| |res]; unfold reporter_step, reporter_deferred, round_total.
  - by destruct (interactive cfg).
  - by destruct (interactive cfg).
  - destruct (0 <? ReadErrors (Merge res testRes)), (failFast cfg),
      (interactive cfg); cbn; done.
Qed.

Lemma reporter_step_quiet cfg sel testRes :
  sent (reporter_step cfg sel testRes).1 = [] /\
  count_events is_workers_done (reporter_step cfg sel testRes).1 = 0%nat.
Proof.
  destruct sel as [| |res]; unfold reporter_step, reporter_deferred.
  - by destruct (interactive cfg).
  - by destruct (interactive cfg).
  - by destruct (0 <? ReadErrors (Merge res testRes)), (failFast cfg),
      (interactive cfg).
Qed.

Lemma count_events_app p evs1 evs2 :
  count_events p (evs1 ++ evs2) = (count_events p evs1 + count_events p evs2)%nat.
Proof. unfold count_events. by rewrite filter_app, length_app. Qed.

Lemma count_events_prints p (out : list Line) :
  (forall l, p (Print l) = false) -> count_events p (Print <$> out) = 0%nat.
Proof.
  intros Hp. induction out as [|l out IH]; [done|].
  unfold count_events in *. rewrite fmap_cons, filter_cons_False; [done|].
  by rewrite Hp.
Qed.

Lemma reports_done_mark w : reports (done_mark w) = [].
Proof. unfold done_mark. by destruct (is_exited w). Qed.

Lemma sent_done_mark w : sent (done_mark w) = [].
Proof. unfold done_mark. by destruct (is_exited w). Qed.

Lemma step_kind_totals cfg sys sys' :
  step_kind cfg sys sys' -> totals_ok sys -> totals_ok sys'.
Proof.
  unfold totals_ok, final_report.
  destruct 1 as [|k w w' out Hk Hw Hout|k w w' pt s testRes Hk Hp Hrep|sel testRes Hsel Hrep];
    cbn [reporter log]; [done| | |].
  - rewrite !sent_app, sent_prints, sent_done_mark, !app_nil_r.
    by rewrite !reports_app, (reports_diagnostics _ Hout), reports_done_mark, !app_nil_r.
  - rewrite Hrep. intros ->.
    destruct (reporter_step_quiet cfg (Recv s) (merge_all zeroStatus (sent (log sys))))
      as [Hq _].
    rewrite !sent_app, Hq, sent_done_mark, !app_nil_r.
    change (sent [Send pt s]) with [s]. rewrite merge_all_snoc.
    destruct (reporter_step cfg (Recv s) _).2 as [total|] eqn:Hnext.
    + by apply reporter_step_goes_on in Hnext as [-> _].
    + apply reporter_step_returns in Hnext as [Hlast _].
      rewrite !reports_app, reports_done_mark, app_nil_r.
      change (reports [Send pt s]) with (@nil Status). rewrite app_nil_l.
      apply last_Some in Hlast as [rs Hrs]. rewrite Hrs, app_assoc. by rewrite last_snoc.
  - rewrite Hrep. intros ->.
    destruct (reporter_step_quiet cfg sel (merge_all zeroStatus (sent (log sys))))
      as [Hq _].
    rewrite !sent_app, Hq, !app_nil_r.
    destruct (reporter_step cfg sel _).2 as [total|] eqn:Hnext.
    + apply reporter_step_goes_on in Hnext as (_ & [res ->] & _). by destruct Hsel.
    + apply reporter_step_returns in Hnext as [Hlast _].
      rewrite reports_app.
      apply last_Some in Hlast as [rs Hrs]. rewrite Hrs, app_assoc, last_snoc.
      by destruct Hsel as [-> | ->].
Qed.

Lemma run_kind_invariant cfg (Inv : Sys -> Prop) :
  (forall sys sys', step_kind cfg sys sys' -> Inv sys -> Inv sys') ->
  forall sys schedule, Inv sys -> Inv (run cfg sys schedule).
Proof.
  intros Hstep sys schedule. revert sys.
  induction schedule as [|act schedule IH]; intros sys Hinv; [done|].
  cbn. apply IH. eapply Hstep; [apply step_has_kind|done].
Qed.

(** X6. The reporter neither loses nor double counts a counter it has
    received: while it collects, its running total is the merge of every
    counter sent on the channel so far, and once it has returned, the last
    totals printed are the merge of every counter ever sent. *)
Theorem reporter_total_is_merge {Table : Type} cfg (tables : list Table)
    scripts schedule :
  wait_group_fits cfg tables ->
  let sys := run cfg (runJob cfg tables scripts) schedule in
  match reporter sys with
  | Some total => total = merge_all zeroStatus (sent (log sys))
  | None => final_report sys = Some (merge_all zeroStatus (sent (log sys)))
  end.
Proof.
  intros _.
  apply (run_kind_invariant cfg totals_ok (step_kind_totals cfg)).
  reflexivity.
Qed.

Lemma example_fits : wait_group_fits example_cfg example_tables.
Proof. split; vm_compute; discriminate. Qed.

Lemma reporter_total_is_merge_witness :
  final_report (run example_cfg (runJob example_cfg example_tables example_scripts)
                    example_schedule)
  = Some (merge_all zeroStatus [mkStatus 1 1 0 0]).
Proof.
  exact (reporter_total_is_merge example_cfg example_tables example_scripts
           example_schedule example_fits).
Defined.

Lemma count_events_done_mark p w :
  p WorkersDone = false -> count_events p (done_mark w) = 0%nat.
Proof.
  intros Hp. unfold done_mark, count_events. destruct (is_exited w); [|done].
  rewrite filter_cons_False; [done|]. by rewrite Hp.
Qed.

Lemma step_kind_shutdown cfg sys sys' :
  step_kind cfg sys sys' -> shutdown_ok sys -> shutdown_ok sys'.
Proof.
  unfold shutdown_ok.
  destruct 1 as [|k w w' out Hk Hw Hout|k w w' pt s testRes Hk Hp Hrep|sel testRes Hsel Hrep];
    cbn [reporter log workerCtx]; [done| | |].
  - intros (Hc & Hcc & Hrd). split_and!; [done| |].
    + by rewrite !count_events_app, count_events_prints, count_events_done_mark, !Nat.add_0_r.
    + by rewrite !count_events_app, count_events_prints, count_events_done_mark, !Nat.add_0_r.
  - rewrite Hrep. intros (Hc & Hcc & Hrd).
    destruct (workerCtx sys); [by discriminate Hc|]. cbn [orb].
    rewrite !count_events_app, !count_events_done_mark, Hcc, Hrd by done.
    change (count_events is_cancel [Send pt s]) with 0%nat.
    change (count_events is_reporter_done [Send pt s]) with 0%nat.
    destruct (reporter_step cfg (Recv s) testRes).2 as [total|] eqn:Hnext.
    + apply reporter_step_goes_on in Hnext as (_ & _ & _ & -> & -> & ->). done.
    + apply reporter_step_returns in Hnext as (_ & -> & ->). split_and!; [done| |done].
      by destruct (cancels _).
  - rewrite Hrep. intros (Hc & Hcc & Hrd).
    destruct (workerCtx sys); [by discriminate Hc|]. cbn [orb].
    rewrite !count_events_app, Hcc, Hrd.
    destruct (reporter_step cfg sel testRes).2 as [total|] eqn:Hnext.
    + apply reporter_step_goes_on in Hnext as (_ & _ & _ & -> & -> & ->). done.
    + apply reporter_step_returns in Hnext as (_ & -> & ->). split_and!; [done| |done].
      by destruct (cancels _).
Qed.

Lemma after_cancel_app evs1 evs2 :
  after_cancel (evs1 ++ evs2)
  = match after_cancel evs1 with
    | Some post => Some (post ++ evs2)
    | None => after_cancel evs2
    end.
Proof.
  induction evs1 as [|e evs1 IH]; [done|].
  destruct e; cbn [app after_cancel]; done.
Qed.

Lemma after_cancel_prints (out : list Line) : after_cancel (Print <$> out) = None.
Proof. induction out as [|l out IH]; [done|]. exact IH. Qed.

Lemma after_cancel_done_mark w : after_cancel (done_mark w) = None.
Proof. unfold done_mark. by destruct (is_exited w). Qed.

Lemma reporter_step_after_cancel cfg sel testRes :
  match after_cancel (reporter_step cfg sel testRes).1 with
  | Some post =>
      (reporter_step cfg sel testRes).2 = None /\ sent post = [] /\ reports post = []
  | None => True
  end.
Proof.
  destruct sel as [| |res]; unfold reporter_step, reporter_deferred.
  - by destruct (interactive cfg).
  - by destruct (interactive cfg).
  - by destruct (0 <? ReadErrors (Merge res testRes)), (failFast cfg), (interactive cfg).
Qed.

Lemma step_kind_after_cancel cfg sys sys' :
  step_kind cfg sys sys' -> after_cancel_ok sys -> after_cancel_ok sys'.
Proof.
  unfold after_cancel_ok.
  destruct 1 as [|k w w' out Hk Hw Hout|k w w' pt s testRes Hk Hp Hrep|sel testRes Hsel Hrep];
    cbn [reporter log]; [done| | |].
  - rewrite !after_cancel_app, after_cancel_prints, after_cancel_done_mark.
    destruct (after_cancel (log sys)) as [post|]; [|done].
    intros (Hrep & Hsent & Hreports). split_and!; [done| |].
    + by rewrite !sent_app, Hsent, sent_prints, sent_done_mark.
    + by rewrite !reports_app, Hreports, (reports_diagnostics _ Hout), reports_done_mark.
  - rewrite !after_cancel_app.
    destruct (after_cancel (log sys)) as [post|]; [intros [Hnone _]; congruence|].
    intros _. cbn [after_cancel].
    pose proof (reporter_step_after_cancel cfg (Recv s) testRes) as Hstep.
    destruct (after_cancel (reporter_step cfg (Recv s) testRes).1) as [post|].
    + destruct Hstep as (Hnone & Hsent & Hreports). split_and!; [done| |].
      * by rewrite sent_app, Hsent, sent_done_mark.
      * by rewrite reports_app, Hreports, reports_done_mark.
    + by rewrite after_cancel_done_mark.
  - rewrite !after_cancel_app.
    destruct (after_cancel (log sys)) as [post|]; [intros [Hnone _]; congruence|].
    intros _. exact (reporter_step_after_cancel cfg sel testRes).
Qed.

(** X7. The workers are cancelled at most once, and by the reporter on its
    way out.  The log shows [cancelWorkers()] once exactly when the context
    is cancelled and [reporter.Done()] at most once; as long as the
    reporter is in its loop the context is not cancelled and
    [reporter.Done()] has not been called; and after [cancelWorkers()] no
    counter is received and no total is printed. *)
Theorem shutdown_is_orderly {Table : Type} cfg (tables : list Table)
    scripts schedule :
  let sys := run cfg (runJob cfg tables scripts) schedule in
  count_events is_cancel (log sys) = (if workerCtx sys then 1 else 0)%nat /\
  (count_events is_reporter_done (log sys) <= 1)%nat /\
  (is_Some (reporter sys) ->
   workerCtx sys = false /\ count_events is_reporter_done (log sys) = 0%nat) /\
  (forall post, after_cancel (log sys) = Some post ->
     reporter sys = None /\ sent post = [] /\ reports post = []).
Proof.
  intros sys.
  assert (Hshut : shutdown_ok sys).
  { apply (run_kind_invariant cfg shutdown_ok (step_kind_shutdown cfg)). by split_and!. }
  assert (Hafter : after_cancel_ok sys).
  { by apply (run_kind_invariant cfg after_cancel_ok (step_kind_after_cancel cfg)). }
  destruct Hshut as (Hctx & Hcancel & Hdone). split_and!.
  - exact Hcancel.
  - rewrite Hdone. destruct (reporter sys); lia.
  - intros [total Htotal]. rewrite Htotal in Hctx, Hdone. split; [|exact Hdone].
    destruct (workerCtx sys); [by discriminate Hctx|done].
  - intros post Hpost. unfold after_cancel_ok in Hafter. by rewrite Hpost in Hafter.
Qed.

Lemma shutdown_is_orderly_witness :
  count_events is_cancel
    (log (run example_cfg (runJob example_cfg example_tables example_scripts)
              (example_schedule ++ [TimerFires; WorkersWaited])))
  = (if workerCtx (run example_cfg (runJob example_cfg example_tables example_scripts)
                       (example_schedule ++ [TimerFires; WorkersWaited]))
     then 1 else 0)%nat.
Proof.
  exact (proj1 (shutdown_is_orderly example_cfg example_tables example_scripts
                  (example_schedule ++ [TimerFires; WorkersWaited]))).
Defined.

Lemma exited_count_insert ws k w w' :
  ws !! k = Some w ->
  is_exited w = false ->
  exited_count (<[k:=w']> ws)
  = (exited_count ws + (if is_exited w' then 1 else 0))%nat.
Proof.
  unfold exited_count. revert k.
  induction ws as [|v ws IH]; intros k Hk Hw; [done|].
  destruct k as [|k]; cbn in Hk.
  - injection Hk as ->. change (<[0%nat:=w']> (w :: ws)) with (w' :: ws).
    rewrite (filter_cons_False _ w) by (by rewrite Hw).
    rewrite filter_cons. destruct (is_exited w').
    + rewrite decide_True by done. cbn [length]. lia.
    + rewrite decide_False by done. lia.
  - change (<[S k:=w']> (v :: ws)) with (v :: <[k:=w']> ws).
    rewrite !filter_cons.
    destruct (decide (is_exited v = true)); cbn [length]; rewrite (IH k Hk Hw); lia.
Qed.

Lemma step_kind_wait_group cfg sys sys' :
  step_kind cfg sys sys' ->
  count_events is_workers_done (log sys) = exited_count (workers sys) ->
  count_events is_workers_done (log sys') = exited_count (workers sys') /\
  length (workers sys') = length (workers sys).
Proof.
  assert (Hmark : forall w, count_events is_workers_done (done_mark w)
                            = (if is_exited w then 1 else 0)%nat).
  { intros w. unfold done_mark. by destruct (is_exited w). }
  destruct 1 as [|k w w' out Hk Hw Hout|k w w' pt s testRes Hk Hp Hrep|sel testRes Hsel Hrep];
    cbn [workers log]; intros Hinv; rewrite ?length_insert; (split; [|done]); [done| | |].
  - rewrite !count_events_app, count_events_prints, Hmark, Hinv by done.
    by rewrite (exited_count_insert _ _ _ _ Hk Hw).
  - destruct (reporter_step_quiet cfg (Recv s) testRes) as [_ Hq].
    rewrite !count_events_app, Hq, Hmark, Hinv.
    change (count_events is_workers_done [Send pt s]) with 0%nat.
    rewrite (exited_count_insert _ _ _ _ Hk); [lia|]. by destruct w.
  - destruct (reporter_step_quiet cfg sel testRes) as [_ Hq].
    rewrite !count_events_app, Hq, Hinv. lia.
Qed.

Lemma exited_count_none ws :
  Forall (fun w => is_exited w = false) ws -> exited_count ws = 0%nat.
Proof.
  unfold exited_count. induction 1 as [|w ws Hw _ IH]; [done|].
  rewrite filter_cons_False; [done|]. by rewrite Hw.
Qed.

Lemma length_partitions {Table : Type} cfg (tables : list Table) :
  length (partitions cfg tables) = (length tables * Z.to_nat (concurrency cfg))%nat.
Proof.
  unfold partitions. induction tables as [|t tables IH]; [done|].
  cbn [mbind list_bind]. rewrite length_app, IH, length_fmap.
  unfold table_partitions, worker_indices. rewrite !length_fmap, length_seq.
  cbn [length]. lia.
Qed.

(** X8. The wait group of the workers is accounted for exactly.  A run
    has one worker per table and worker index, as many as are announced to
    [workers.Add]; at every point [wg.Done()] has been called once for each
    worker that has returned and for no other, so [workers.Wait()] can
    return only when every worker has. *)
Theorem wait_group_counts_exits {Table : Type} cfg (tables : list Table)
    scripts schedule :
  wait_group_fits cfg tables ->
  let sys := run cfg (runJob cfg tables scripts) schedule in
  count_events is_workers_done (log sys) = exited_count (workers sys) /\
  length (workers sys) = (length tables * Z.to_nat (concurrency cfg))%nat.
Proof.
  intros _.
  apply (run_kind_invariant cfg
           (fun sys => count_events is_workers_done (log sys)
                       = exited_count (workers sys) /\
                       length (workers sys)
                       = (length tables * Z.to_nat (concurrency cfg))%nat)).
  - intros sys sys' Hkind [Hc Hl].
    destruct (step_kind_wait_group cfg sys sys' Hkind Hc) as [Hc' Hl'].
    split; [done|congruence].
  - cbn [runJob log workers]. split.
    + symmetry. apply exited_count_none, Forall_lookup. intros k w Hk.
      by apply list_lookup_imap_Some in Hk as (tp & _ & ->).
    + by rewrite length_imap, length_partitions.
Qed.

Lemma wait_group_counts_exits_witness :
  count_events is_workers_done
    (log (run example_cfg (runJob example_cfg example_tables example_scripts)
              (example_schedule ++ [WorkerTurn 0; WorkerTurn 1]))) = 2%nat /\
  length (workers (run example_cfg (runJob example_cfg example_tables example_scripts)
                       (example_schedule ++ [WorkerTurn 0; WorkerTurn 1]))) = 2%nat.
Proof.
  exact (wait_group_counts_exits example_cfg example_tables example_scripts
           (example_schedule ++ [WorkerTurn 0; WorkerTurn 1]) example_fits).
Defined.

(** X9. In a fail-fast run the reporter never goes on collecting with a
    read error in its total: as long as it has not returned, the
    [ReadErrors] it has merged are not positive. *)
Theorem fail_fast_total_never_positive {Table : Type} cfg (tables : list Table)
    scripts schedule total :
  wait_group_fits cfg tables ->
  failFast cfg = true ->
  reporter (run cfg (runJob cfg tables scripts) schedule) = Some total ->
  ReadErrors total <= 0.
Proof.
  intros _ Hff.
  revert total.
  apply (run_kind_invariant cfg
           (fun sys => forall total, reporter sys = Some total -> ReadErrors total <= 0)).
  - intros sys sys'
      [|k w w' out Hk Hw Hout|k w w' pt s testRes Hk Hp Hrep|sel testRes Hsel Hrep]
      Hinv total; cbn [reporter]; [by apply Hinv..| |].
    + intros Hnext. by apply reporter_step_goes_on in Hnext as (_ & _ & Hle & _); auto.
    + intros Hnext. by apply reporter_step_goes_on in Hnext as (_ & _ & Hle & _); auto.
  - cbn. by intros total [= <-].
Qed.

Lemma fail_fast_total_never_positive_witness :
  ReadErrors (mkStatus 0 0 1 0) <= 0.
Proof.
  assert (Hfits : wait_group_fits failfast_cfg example_tables)
    by (split; vm_compute; discriminate).
  exact (fail_fast_total_never_positive failfast_cfg example_tables
           [[matching_answers; diverging_answers]] [WorkerTurn 0; WorkerTurn 0]
           (mkStatus 0 0 1 0) Hfits eq_refl eq_refl).
Defined.

(** ** Senders without a receiver *)

Lemma deliver_workers cfg pt s sys sys' :
  deliver cfg pt s sys = Some sys' -> workers sys' = workers sys.
Proof.
  unfold deliver, reporter_round, add_log. cbn [reporter workers workerCtx log].
  destruct (reporter sys); [|done].
  destruct (reporter_step cfg (Recv s) _). by intros [= <-].
Qed.

Lemma worker_turn_workers cfg k sys :
  workers (worker_turn cfg k sys) = workers sys \/
  exists w', workers (worker_turn cfg k sys) = <[k:=w']> (workers sys).
Proof.
  assert (Hafter : forall next script sys1,
             workers sys1 = workers sys ->
             workers (after_iter k next script sys1) = workers sys \/
             exists w', workers (after_iter k next script sys1) = <[k:=w']> (workers sys)).
  { intros next script sys1 Hw. right.
    destruct next as [l'|[|p]]; cbn; rewrite Hw; eauto. }
  unfold worker_turn.
  destruct (workers sys !! k) as [[l script|s next script|pending|]|]; auto.
  - destruct (workerCtx sys); [by apply Hafter|].
    destruct script as [|a script]; [by left|].
    destruct (iter_handoff _); [right; cbn; eauto|by apply Hafter].
  - destruct (deliver cfg InLoop s sys) as [sys1|] eqn:Hd; [|by left].
    apply Hafter. by eapply deliver_workers.
  - destruct (deliver cfg AfterLoop pending sys) as [sys1|] eqn:Hd; [|by left].
    right. cbn. apply deliver_workers in Hd. rewrite Hd. eauto.
Qed.

Lemma step_keeps_suspended cfg sys act k w ps :
  reporter sys = None ->
  workers sys !! k = Some w ->
  pending_send w = Some ps ->
  workers (step cfg sys act) !! k = Some w.
Proof.
  intros Hgone Hk Hps. destruct act as [k'| |]; cbn [step].
  - destruct (decide (k' = k)) as [->|Hne].
    + unfold worker_turn. rewrite Hk.
      destruct w as [l script|s next script|pending|]; try done;
        unfold deliver, reporter_round; cbn [reporter add_log]; by rewrite Hgone.
    + destruct (worker_turn_workers cfg k' sys) as [->|[w' ->]]; [done|].
      by rewrite list_lookup_insert_ne.
  - unfold timer_turn, reporter_round. by rewrite Hgone.
  - unfold coordinator_turn, reporter_round. rewrite Hgone. by case_match.
Qed.

Lemma run_keeps_suspended cfg sys schedule k w ps :
  reporter sys = None ->
  workers sys !! k = Some w ->
  pending_send w = Some ps ->
  reporter (run cfg sys schedule) = None /\
  workers (run cfg sys schedule) !! k = Some w.
Proof.
  intros Hgone Hk Hps. revert sys Hgone Hk.
  induction schedule as [|act schedule IH]; intros sys Hgone Hk; [done|].
  cbn. apply IH.
  - by apply step_reporter_gone.
  - by eapply step_keeps_suspended.
Qed.

Lemma flushing_turn_received cfg sys k pending total :
  workers sys !! k = Some (Flushing pending) ->
  reporter sys = Some total ->
  workers (worker_turn cfg k sys) !! k = Some Exited /\
  sent (log (worker_turn cfg k sys)) = sent (log sys) ++ [pending] /\
  count_events is_workers_done (log (worker_turn cfg k sys))
  = S (count_events is_workers_done (log sys)).
Proof.
  intros Hk Hrep. unfold worker_turn. rewrite Hk.
  unfold deliver, reporter_round, add_log. cbn [reporter workers workerCtx log].
  rewrite Hrep.
  destruct (reporter_step_quiet cfg (Recv pending) total) as [Hsent Hdone].
  destruct (reporter_step cfg (Recv pending) total) as [evs next].
  cbn [fst snd] in *. unfold set_worker. cbn [reporter workers workerCtx log].
  split_and!.
  - apply list_lookup_insert_eq. by eapply lookup_lt_Some.
  - rewrite !sent_app, Hsent. cbn. by rewrite !app_nil_r.
  - rewrite !count_events_app, Hdone.
    change (count_events is_workers_done [Send AfterLoop pending]) with 0%nat.
    change (count_events is_workers_done [WorkersDone]) with 1%nat. lia.
Qed.

(** C2, as the code has it.  A worker that observes the cancellation
    returns at once: it calls [wg.Done()] without any send after the loop.
    A worker that leaves its loop by [break] (the local fail-fast exit,
    taken only with [failFast] set and a positive [ReadErrors] in its
    counter) goes into the send after the loop.  If the reporter receives
    that send, the worker has sent its pending counter exactly once more
    and then calls [wg.Done()]; if it does not, the worker has neither sent
    nor called [wg.Done()].  In the whole run, a turn of the worker that
    finds the reporter in its loop has the send received: it adds the
    pending counter to the counters sent, and one [wg.Done()]; once the
    reporter has left its loop the worker stays in that send whatever
    happens next. *)
Theorem Job_exit_flush cfg received ticks x :
  Job_exit cfg ticks = Some x ->
  let pre := (Job_loop cfg ticks initLocals).1 in
  count_sends AfterLoop pre = 0%nat /\
  (WorkersDone ∉ pre) /\
  match x with
  | ByBreak pending =>
      failFast cfg = true /\ 0 < ReadErrors pending /\
      Job cfg received ticks
      = pre ++ (if received then [Send AfterLoop pending; WorkersDone] else []) /\
      forall sys k, workers sys !! k = Some (Flushing pending) ->
        match reporter sys with
        | Some _ =>
            workers (worker_turn cfg k sys) !! k = Some Exited /\
            sent (log (worker_turn cfg k sys)) = sent (log sys) ++ [pending] /\
            count_events is_workers_done (log (worker_turn cfg k sys))
            = S (count_events is_workers_done (log sys))
        | None =>
            forall schedule,
              workers (run cfg sys schedule) !! k = Some (Flushing pending)
        end
  | ByReturn =>
      Job cfg received ticks = pre ++ [WorkersDone] /\ Cancelled ∈ ticks
  end.
Proof.
  intros Hx pre. subst pre. unfold Job_exit, Job in *.
  pose proof (Job_loop_in_loop cfg ticks initLocals) as [Hc Hd].
  pose proof (Job_loop_exit cfg ticks initLocals) as He.
  destruct (Job_loop cfg ticks initLocals) as [evs [l|y]]; simpl in *; [done|].
  injection Hx as ->. specialize (He x eq_refl).
  split_and!; [done|done|]. destruct x as [|pending]; [done|].
  destruct He as [Hff Hpos]. split_and!; [done|done|done|].
  intros sys k Hk. destruct (reporter sys) as [total|] eqn:Hrep.
  - by apply (flushing_turn_received cfg sys k pending total).
  - intros schedule.
    by apply (run_keeps_suspended cfg sys schedule k (Flushing pending)
                (AfterLoop, pending)).
Qed.

Lemma Job_exit_flush_witness :
  Job failfast_cfg false [Proceed matching_answers; Proceed diverging_answers]
  = [Send InLoop (mkStatus 0 0 1 0);
     Print (PrintCheckFailed (mkStmt "SELECT" []) (ErrOther "rows differ"))] ++ [] /\
  failFast failfast_cfg = true.
Proof.
  destruct (Job_exit_flush failfast_cfg false
              [Proceed matching_answers; Proceed diverging_answers]
              (ByBreak (mkStatus 0 0 0 1)) eq_refl)
    as (_ & _ & Hff & _ & Htrace & _).
  split; [exact Htrace|exact Hff].
Defined.

(** X10. A worker suspended in a send when the reporter has returned is
    never received from: whatever happens next it stays suspended in that
    send, it never calls [wg.Done()], and so [workers.Wait()] never
    returns.  The witness reaches such a state from the start of a run: a
    worker has run its first iteration and is about to hand its counter
    off when the timer fires. *)
Theorem suspended_sender_never_resumes cfg sys k w ps schedule :
  reporter sys = None ->
  workers sys !! k = Some w ->
  pending_send w = Some ps ->
  workers (run cfg sys schedule) !! k = Some w /\
  forallb is_exited (workers (run cfg sys schedule)) = false /\
  step cfg (run cfg sys schedule) WorkersWaited = run cfg sys schedule.
Proof.
  intros Hgone Hk Hps.
  assert (Hrun : reporter (run cfg sys schedule) = None /\
                 workers (run cfg sys schedule) !! k = Some w)
    by (by eapply run_keeps_suspended).
  destruct Hrun as [Hgone' Hk'].
  assert (Hwait : forallb is_exited (workers (run cfg sys schedule)) = false).
  { apply not_true_is_false. intros Hall.
    rewrite forallb_forall in Hall.
    apply list_elem_of_lookup_2, list_elem_of_In, Hall in Hk'. by destruct w. }
  split_and!; [done|done|].
  cbn [step]. unfold coordinator_turn. by rewrite Hwait.
Qed.

Lemma suspended_sender_never_resumes_witness :
  workers (run example_cfg
             (run example_cfg (runJob example_cfg example_tables example_scripts)
                  [WorkerTurn 0; TimerFires])
             [WorkerTurn 0; WorkerTurn 1; WorkersWaited; WorkerTurn 0]) !! 0%nat
  = Some (Handoff (mkStatus 1 1 0 0) (inl (mkLocals 1 zeroStatus)) [failing_answers]) /\
  forallb is_exited
    (workers (run example_cfg
                (run example_cfg (runJob example_cfg example_tables example_scripts)
                     [WorkerTurn 0; TimerFires])
                [WorkerTurn 0; WorkerTurn 1; WorkersWaited; WorkerTurn 0])) = false.
Proof.
  destruct (suspended_sender_never_resumes example_cfg
              (run example_cfg (runJob example_cfg example_tables example_scripts)
                   [WorkerTurn 0; TimerFires])
              0%nat
              (Handoff (mkStatus 1 1 0 0) (inl (mkLocals 1 zeroStatus)) [failing_answers])
              (InLoop, mkStatus 1 1 0 0)
              [WorkerTurn 0; WorkerTurn 1; WorkersWaited; WorkerTurn 0]
              eq_refl eq_refl eq_refl) as (Hk & Hwait & _).
  split; [exact Hk|exact Hwait].
Defined.

(** ** What ends a run *)

Lemma deliver_goes_on cfg pt s sys total :
  reporter sys = Some total ->
  failFast cfg = false \/ ReadErrors (Merge s total) <= 0 ->
  exists evs,
    deliver cfg pt s sys =
    Some (mkSys (workers sys) (Some (Merge s total)) (workerCtx sys) (log sys ++ evs)).
Proof.
  intros Hrep Hcase. unfold deliver, reporter_round, add_log.
  cbn [reporter workers workerCtx log]. rewrite Hrep. unfold reporter_step.
  exists ([Send pt s] ++ (if interactive cfg then [Suffix (Merge s total)] else [])
          ++ (if 0 <? ReadErrors (Merge s total)
              then [Print (PrintResult (Merge s total))] else [])).
  destruct (Z.ltb_spec 0 (ReadErrors (Merge s total))) as [Hpos|Hle].
  - destruct Hcase as [Hff|Hle]; [|lia]. rewrite Hff.
    rewrite <- !app_assoc.
    destruct (interactive cfg); cbn [cancels existsb app]; by rewrite orb_false_r.
  - rewrite <- !app_assoc, app_nil_r.
    destruct (interactive cfg); cbn [cancels existsb app]; by rewrite orb_false_r.
Qed.

Lemma in_loop_not_exited ws :
  ws <> [] -> Forall in_loop ws -> forallb is_exited ws = false.
Proof.
  destruct ws as [|w ws]; [done|]. intros _ Hall.
  apply Forall_cons in Hall as [Hw _]. by destruct w.
Qed.

Lemma step_keeps_collecting cfg sys act :
  failFast cfg = false \/
  (mode cfg = writeMode /\ sys_ok no_reads (fun _ => True) sys) ->
  act <> TimerFires ->
  workers sys <> [] ->
  collecting sys -> collecting (step cfg sys act).
Proof.
  intros Hcase Hact Hne ([total Hrep] & Hctx & Hloop).
  destruct act as [k| |]; [|done|]; cbn [step].
  - unfold worker_turn.
    destruct (workers sys !! k) as [w|] eqn:Hk; [|by split_and!; eauto].
    pose proof (Forall_lookup_1 _ _ _ _ Hloop Hk) as Hin.
    destruct w as [l script|s next script|pending|]; [| |done..].
    + rewrite Hctx. destruct script as [|a script]; [by split_and!; eauto|].
      cbn [Job_iter].
      assert (Hnext : exists l1, iter_next (Job_body cfg a l) = inl l1).
      { destruct Hcase as [Hff|[Hmode (_ & Hws & _)]].
        - destruct (Job_body_next cfg a l) as [[st ->]|(p & _ & Hff' & _)]; [eauto|congruence].
        - pose proof (Forall_lookup_1 _ _ _ _ Hws Hk) as [Hheld _].
          cbn in Hheld. apply Forall_cons in Hheld as [Hnr _].
          destruct (Job_body_write_next cfg a l Hmode Hnr) as (l1 & -> & _). eauto. }
      destruct Hnext as [l1 Hl1]. rewrite Hl1.
      destruct (iter_handoff (Job_body cfg a l)); cbn;
        (split_and!; [eauto|done|by apply Forall_insert]).
    + destruct next as [l'|x]; [|done].
      assert (Hgo : failFast cfg = false \/ ReadErrors (Merge s total) <= 0).
      { destruct Hcase as [Hff|[_ (Htot & Hws & _)]]; [by left|right].
        pose proof (Forall_lookup_1 _ _ _ _ Hws Hk) as [Hheld _].
        cbn in Hheld. apply Forall_cons in Hheld as [Hs _].
        destruct (Merge_no_reads _ _ Hs (Htot _ Hrep)) as [_ ->]. lia. }
      destruct (deliver_goes_on cfg InLoop s sys total Hrep Hgo) as [evs ->].
      cbn. split_and!; [eauto|done|by apply Forall_insert].
  - unfold coordinator_turn. rewrite (in_loop_not_exited _ Hne Hloop).
    by split_and!; eauto.
Qed.

Lemma step_length_workers cfg sys act :
  length (workers (step cfg sys act)) = length (workers sys).
Proof.
  destruct (step_has_kind cfg sys act); cbn [workers]; by rewrite ?length_insert.
Qed.

Lemma run_length_workers cfg sys schedule :
  length (workers (run cfg sys schedule)) = length (workers sys).
Proof.
  revert sys. induction schedule as [|act schedule IH]; intros sys; [done|].
  change (run cfg sys (act :: schedule)) with (run cfg (step cfg sys act) schedule).
  by rewrite IH, step_length_workers.
Qed.

(** X11. Only the deadline ends a run that cannot trip: in write mode,
    with or without fail-fast, and in any mode without fail-fast, as long
    as the timer has not fired the reporter goes on collecting, the
    workers are not cancelled, and every worker is in its loop. *)
Theorem only_the_timer_ends_the_run {Table : Type} cfg (tables : list Table)
    scripts schedule :
  wait_group_fits cfg tables ->
  mode cfg = writeMode \/ failFast cfg = false ->
  tables <> [] -> 0 < concurrency cfg ->
  TimerFires ∉ schedule ->
  let sys := run cfg (runJob cfg tables scripts) schedule in
  is_Some (reporter sys) /\ workerCtx sys = false /\ Forall in_loop (workers sys).
Proof.
  intros _ Hcase Htables Hconc Hsched. cbn zeta.
  change (collecting (run cfg (runJob cfg tables scripts) schedule)).
  induction schedule as [|act schedule IH] using rev_ind.
  - cbn. split_and!; [eauto|done|].
    apply Forall_lookup. intros k w Hk.
    by apply list_lookup_imap_Some in Hk as (tp & _ & ->).
  - rewrite run_snoc. rewrite not_elem_of_app, not_elem_of_cons in Hsched.
    destruct Hsched as (Hs & Hact & _).
    apply step_keeps_collecting; [|done| |by apply IH].
    + destruct Hcase as [Hmode|Hff]; [right|by left].
      split; [done|]. by apply write_mode_no_reads.
    + intros Hnil. apply (f_equal length) in Hnil.
      rewrite run_length_workers in Hnil. cbn in Hnil.
      rewrite length_imap, length_partitions in Hnil.
      destruct tables; [done|]. cbn in Hnil. lia.
Qed.

Lemma only_the_timer_ends_the_run_witness :
  is_Some (reporter (run example_cfg
                       (runJob example_cfg example_tables example_scripts)
                       [WorkerTurn 0; WorkerTurn 0; WorkerTurn 1; WorkersWaited])) /\
  workerCtx (run example_cfg
               (runJob example_cfg example_tables example_scripts)
               [WorkerTurn 0; WorkerTurn 0; WorkerTurn 1; WorkersWaited]) = false.
Proof.
  assert (Hs : TimerFires ∉ [WorkerTurn 0; WorkerTurn 0; WorkerTurn 1; WorkersWaited]).
  { rewrite !not_elem_of_cons. split_and!; try discriminate. apply not_elem_of_nil. }
  assert (Hc : 0 < concurrency example_cfg) by (cbn; lia).
  destruct (only_the_timer_ends_the_run example_cfg example_tables example_scripts
              [WorkerTurn 0; WorkerTurn 0; WorkerTurn 1; WorkersWaited]
              example_fits (or_introl eq_refl) ltac:(discriminate) Hc Hs)
    as (Hrep & Hctx & _).
  split; [exact Hrep|exact Hctx].
Defined.

(** X12. With no table, or with a concurrency of zero, no worker is
    launched; [workers.Wait()] returns at once, and the reporter, asked to
    stop, prints totals that are all zero and returns without cancelling
    anything. *)
Theorem run_without_workers {Table : Type} cfg (tables : list Table) scripts :
  tables = [] \/ concurrency cfg = 0 ->
  let sys := step cfg (runJob cfg tables scripts) WorkersWaited in
  workers sys = [] /\
  reporter sys = None /\
  final_report sys = Some zeroStatus /\
  workerCtx sys = false.
Proof.
  intros Hcase.
  assert (Hnone : partitions cfg tables = []).
  { apply length_zero_iff_nil. rewrite length_partitions.
    destruct Hcase as [-> | ->]; [done|]. cbn. lia. }
  cbn. unfold runJob, coordinator_turn, reporter_round. cbn. rewrite Hnone. cbn.
  unfold final_report, reporter_deferred. cbn.
  by destruct (interactive cfg).
Qed.

Lemma run_without_workers_witness :
  final_report (step (mkConfig 0 50 1 false mixedMode false true)
                     (runJob (mkConfig 0 50 1 false mixedMode false true)
                             example_tables example_scripts)
                     WorkersWaited) = Some zeroStatus.
Proof.
  exact (proj1 (proj2 (proj2
    (run_without_workers (mkConfig 0 50 1 false mixedMode false true)
       example_tables example_scripts (or_intror eq_refl))))).
Defined.

(** ** The choice of the operation *)

Lemma rem2_even a : (Z.rem a 2 =? 0) = Z.even a.
Proof.
  assert (Hpos : forall b, 0 <= b -> (Z.rem b 2 =? 0) = Z.even b).
  { intros b Hb. rewrite Z.rem_mod_nonneg by lia. rewrite Zmod_even.
    by destruct (Z.even b). }
  destruct (Z_le_gt_dec 0 a) as [Ha|Ha]; [by apply Hpos|].
  rewrite <- (Z.opp_involutive a), Z.rem_opp_l', Z.even_opp.
  rewrite <- (Hpos (- a)) by lia.
  destruct (Z.eqb_spec (Z.rem (- a) 2) 0) as [->|Hne]; [done|].
  apply Z.eqb_neq. lia.
Qed.

(** X13. Any mode string other than "write" and "read" behaves as mixed
    mode, be it "mixed", empty or misspelt: the operation is chosen by the
    parity of the number drawn, a mutation for an even one and a
    validation for an odd one. *)
Theorem unknown_mode_is_mixed cfg a st :
  mode cfg <> writeMode -> mode cfg <> readMode ->
  run_op cfg a st =
    (if Z.even (ans_Intn a) then mutationJob cfg a st else validationJob cfg a st) /\
  (run_op cfg a st).2 =
    (run_op (mkConfig (concurrency cfg) (pkNumberPerThread cfg) (seed cfg)
                      (verbose cfg) mixedMode (failFast cfg) (nonInteractive cfg))
            a st).2.
Proof.
  intros Hw Hr.
  pose proof (rem2_even (ans_Intn a)) as Hsel.
  unfold run_op.
  apply String.eqb_neq in Hw, Hr. rewrite Hw, Hr. cbn. rewrite Hsel.
  split; [done|]. unfold mutationJob, validationJob. cbn.
  by destruct (Z.even (ans_Intn a)).
Qed.

Lemma unknown_mode_is_mixed_witness :
  run_op (mkConfig 2 50 1 false "Write" false true) matching_answers zeroStatus
  = validationJob (mkConfig 2 50 1 false "Write" false true) matching_answers zeroStatus.
Proof.
  exact (proj1 (unknown_mode_is_mixed (mkConfig 2 50 1 false "Write" false true)
                  matching_answers zeroStatus ltac:(discriminate) ltac:(discriminate))).
Defined.

(** ** The set-up of a run *)

(** X14. [workers.Add] and the workers launched.  Let [n] be
    [len(schema.Tables) * concurrency], an [int].  The wait group counts
    in 32 bits.  With a concurrency that is not negative and [n] below
    [2 ^ 31], [Add] leaves the counter at [n] and exactly [n] workers are
    launched.  With [n] from [- 2 ^ 31] up to [-1], or from [2 ^ 31] up to
    [2 ^ 32 - 1], the counter comes out negative, [Add] panics and nothing
    is launched.  With [n = - 2 ^ 32] the counter stays at zero, [Add]
    returns and no worker is launched.  With a concurrency that is not
    negative and [n] from [2 ^ 32] on, whenever [Add] returns it has left
    a counter smaller than the number of workers launched. *)
Theorem workers_Add_matches_launch {Table : Type} cfg (tables : list Table) scripts :
  let n := Z.of_nat (length tables) * concurrency cfg in
  let sys := runJob cfg tables scripts in
  GoInt.in_range n ->
  (0 <= concurrency cfg -> n < 2 ^ 31 ->
     runJob_start cfg tables scripts = Some (n, sys) /\
     Z.of_nat (length (workers sys)) = n) /\
  (- 2 ^ 31 <= n < 0 \/ 2 ^ 31 <= n < 2 ^ 32 ->
     runJob_start cfg tables scripts = None) /\
  (n = - 2 ^ 32 ->
     runJob_start cfg tables scripts = Some (0, sys) /\ workers sys = []) /\
  (0 <= concurrency cfg -> 2 ^ 32 <= n ->
     forall counter sys',
       runJob_start cfg tables scripts = Some (counter, sys') ->
       counter < Z.of_nat (length (workers sys'))).
Proof.
  intros n sys Hr.
  assert (Hlen : 0 <= concurrency cfg -> Z.of_nat (length (workers sys)) = n).
  { intros Hc. subst n sys. cbn [runJob workers].
    rewrite length_imap, length_partitions, Nat2Z.inj_mul, Z2Nat.id by lia. done. }
  unfold runJob_start, GoInt.mul.
  rewrite (wrap_small (Z.of_nat (length tables) * concurrency cfg) Hr). fold n.
  unfold WaitGroup_Add, int32. rewrite Z.add_0_l.
  change (2 ^ 31) with 2147483648. change (2 ^ 32) with 4294967296.
  split_and!.
  - intros Hc Hn. assert (0 <= n) by (subst n; nia).
    rewrite Z.mod_small by lia.
    destruct (Z.ltb_spec (n + 2147483648 - 2147483648) 0); [lia|].
    split; [|by apply Hlen]. do 2 f_equal. lia.
  - intros Hn.
    destruct (Z.ltb_spec ((n + 2147483648) `mod` 4294967296 - 2147483648) 0) as [|Hge];
      [done|].
    exfalso. revert Hge. destruct Hn as [Hn|Hn].
    + rewrite Z.mod_small by lia. lia.
    + replace (n + 2147483648) with (n - 2147483648 + 1 * 4294967296) by lia.
      rewrite Z.mod_add, Z.mod_small by lia. lia.
  - intros Hn. rewrite Hn. split; [done|].
    assert (Hc : concurrency cfg < 0) by (subst n; nia).
    subst sys. cbn [runJob workers]. apply length_zero_iff_nil.
    rewrite length_imap, length_partitions.
    replace (Z.to_nat (concurrency cfg)) with 0%nat by lia. lia.
  - intros Hc Hn counter sys'.
    pose proof (Z.mod_pos_bound (n + 2147483648) 4294967296 ltac:(lia)) as Hmod.
    destruct (Z.ltb_spec ((n + 2147483648) `mod` 4294967296 - 2147483648) 0); [done|].
    intros [= <- <-]. fold sys. rewrite (Hlen Hc). lia.
Qed.

Lemma workers_Add_matches_launch_witness :
  runJob_start example_cfg example_tables example_scripts
  = Some (Z.of_nat (length example_tables) * concurrency example_cfg,
          runJob example_cfg example_tables example_scripts) /\
  Z.of_nat (length (workers (runJob example_cfg example_tables example_scripts)))
  = Z.of_nat (length example_tables) * concurrency example_cfg.
Proof.
  assert (Hr : GoInt.in_range
                 (Z.of_nat (length example_tables) * concurrency example_cfg))
    by (split; vm_compute; discriminate).
  exact (proj1 (workers_Add_matches_launch example_cfg example_tables
                  example_scripts Hr)
           ltac:(vm_compute; discriminate) ltac:(reflexivity)).
Defined.

Lemma mutated_app evs1 evs2 : mutated (evs1 ++ evs2) = mutated evs1 ++ mutated evs2.
Proof. apply omap_app. Qed.

Lemma count_setup_app p evs1 evs2 :
  count_setup p (evs1 ++ evs2) = (count_setup p evs1 + count_setup p evs2)%nat.
Proof. unfold count_setup. by rewrite filter_app, length_app. Qed.

Lemma exec_stmts_spec verbose Mutate n stmts :
  let evs := (exec_stmts verbose Mutate n stmts).1 in
  count_setup is_new_session evs = 0%nat /\
  count_setup is_session_close evs = 0%nat /\
  (RunJob ∉ evs) /\
  match first_failure Mutate n (length stmts) with
  | None =>
      (exec_stmts verbose Mutate n stmts).2 = Some (n + length stmts)%nat /\
      mutated evs = stmts
  | Some k =>
      (exec_stmts verbose Mutate n stmts).2 = None /\
      mutated evs = take (S (k - n)) stmts
  end.
Proof.
  revert n. induction stmts as [|stmt stmts IH]; intros n; cbn [exec_stmts length first_failure].
  - cbn. split_and!; try done. apply not_elem_of_nil. by rewrite Nat.add_0_r.
  - destruct (Mutate n) as [err|] eqn:Hn.
    + cbn [fst snd]. rewrite Nat.sub_diag. destruct verbose; cbn.
      all: split_and!; try done; rewrite ?not_elem_of_cons; split_and!;
        try done; apply not_elem_of_nil.
    + specialize (IH (S n)).
      destruct (exec_stmts verbose Mutate (S n) stmts) as [evs r]. cbn [fst snd] in *.
      destruct IH as (Hnew & Hclose & Hrun & Hfail).
      assert (Hecho : forall p, p (EchoStmt stmt) = false -> p (SessionMutate stmt) = false ->
                count_setup p ((if verbose then [EchoStmt stmt] else [])
                               ++ SessionMutate stmt :: evs) = count_setup p evs).
      { intros p He Hm. unfold count_setup. rewrite filter_app.
        destruct verbose; cbn [app];
          rewrite ?filter_cons_False by (by rewrite ?He, ?Hm); done. }
      split_and!.
      * by rewrite Hecho.
      * by rewrite Hecho.
      * rewrite elem_of_app, elem_of_cons. intros [Hin|[?|?]]; try done.
        destruct verbose; revert Hin; elem_of_list; naive_solver.
      * assert (Hmut : mutated ((if verbose then [EchoStmt stmt] else [])
                                ++ SessionMutate stmt :: evs) = stmt :: mutated evs).
        { by destruct verbose. }
        rewrite Hmut.
        destruct (first_failure Mutate (S n) (length stmts)) as [k|] eqn:Hk.
        -- destruct Hfail as [-> ->]. split; [done|].
           assert (S n <= k)%nat.
           { clear -Hk. revert n Hk. generalize (length stmts). intros len.
             induction len as [|len IH]; intros n; cbn; [done|].
             destruct (Mutate (S n)); [intros [= <-]; lia|].
             intros Hk. apply IH in Hk. lia. }
           replace (S (k - n)) with (S (S (k - S n))) by lia. done.
        -- destruct Hfail as [-> ->]. split; [f_equal; lia|done].
Qed.

Lemma first_failure_bounds Mutate n len k :
  first_failure Mutate n len = Some k -> (n <= k < n + len)%nat.
Proof.
  revert n. induction len as [|len IH]; intros n; cbn; [done|].
  destruct (Mutate n); [intros [= <-]; lia|].
  intros Hk. apply IH in Hk. lia.
Qed.

Lemma first_failure_app Mutate n len1 len2 :
  first_failure Mutate n (len1 + len2) =
  match first_failure Mutate n len1 with
  | Some k => Some k
  | None => first_failure Mutate (n + len1) len2
  end.
Proof.
  revert n. induction len1 as [|len1 IH]; intros n; cbn.
  - by rewrite Nat.add_0_r.
  - destruct (Mutate n); [done|]. rewrite IH. by rewrite Nat.add_succ_r.
Qed.

Lemma run_main_spec {Table : Type} cfg flags (env : SetupAnswers Table) schema :
  schema_of flags env = Ok schema ->
  exists body closing,
    (run_main cfg flags env).1 =
      [SeedRand (GoInt.int64 (seed cfg)); PrintBanner; PrintSchema; NewSession]
      ++ body ++ closing /\
    count_setup is_new_session body = 0%nat /\
    count_setup is_session_close body = 0%nat /\
    match first_failure (ans_setup_Mutate env) 0 (length (planned cfg flags schema)) with
    | None =>
        mutated body = planned cfg flags schema /\
        (run_main cfg flags env).2 = Some schema /\
        RunJob ∈ body /\
        last body = Some RunJob /\
        closing = (if run_unwinds cfg env schema then [SessionClose] else [])
    | Some k =>
        mutated body = take (S k) (planned cfg flags schema) /\
        (run_main cfg flags env).2 = None /\
        (RunJob ∉ body) /\
        closing = [SessionClose]
    end.
Proof.
  intros Hschema. unfold run_main, planned. rewrite Hschema.
  set (drops := if dropSchema flags && negb (String.eqb (mode cfg) readMode)
                then GetDropSchema schema else []).
  assert (Hdrops :
    (if dropSchema flags && negb (String.eqb (mode cfg) readMode)
     then exec_stmts (verbose cfg) (ans_setup_Mutate env) 0 (GetDropSchema schema)
     else ([], Some 0%nat))
    = exec_stmts (verbose cfg) (ans_setup_Mutate env) 0 drops).
  { subst drops. by destruct (dropSchema flags && negb (String.eqb (mode cfg) readMode)). }
  rewrite Hdrops. clear Hdrops.
  rewrite length_app, first_failure_app.
  pose proof (exec_stmts_spec (verbose cfg) (ans_setup_Mutate env) 0 drops) as H1.
  destruct (exec_stmts (verbose cfg) (ans_setup_Mutate env) 0 drops) as [evs1 r1].
  cbn [fst snd] in H1. destruct H1 as (Hn1 & Hc1 & Hr1 & Hf1).
  destruct (first_failure (ans_setup_Mutate env) 0 (length drops)) as [k|] eqn:Hk.
  - destruct Hf1 as [-> Hm1]. exists evs1, [SessionClose]. cbn [fst snd].
    apply first_failure_bounds in Hk.
    split_and!; [done|done|done| |done|done|done].
    rewrite Hm1, Nat.sub_0_r, take_app_le by lia. done.
  - destruct Hf1 as [-> Hm1]. cbn [Nat.add].
    pose proof (exec_stmts_spec (verbose cfg) (ans_setup_Mutate env)
                  (length drops) (GetCreateSchema schema)) as H2.
    destruct (exec_stmts (verbose cfg) (ans_setup_Mutate env) (length drops)
                (GetCreateSchema schema)) as [evs2 r2].
    cbn [fst snd] in H2. destruct H2 as (Hn2 & Hc2 & Hr2 & Hf2).
    destruct (first_failure (ans_setup_Mutate env) (length drops)
                (length (GetCreateSchema schema))) as [k|] eqn:Hk2.
    + destruct Hf2 as [-> Hm2]. exists (evs1 ++ evs2), [SessionClose]. cbn [fst snd].
      apply first_failure_bounds in Hk2.
      split_and!; [by rewrite <- !app_assoc| | | |done| |done].
      * by rewrite count_setup_app, Hn1, Hn2.
      * by rewrite count_setup_app, Hc1, Hc2.
      * rewrite mutated_app, Hm1, Hm2.
        replace (S k) with (length drops + S (k - length drops))%nat by lia.
        by rewrite take_app_add.
      * rewrite elem_of_app. tauto.
    + destruct Hf2 as [-> Hm2].
      exists (evs1 ++ evs2 ++ [RunJob]),
             (if run_unwinds cfg env schema then [SessionClose] else []).
      cbn [fst snd].
      split_and!; [by rewrite <- !app_assoc| | | |done| | |done].
      * by rewrite !count_setup_app, Hn1, Hn2.
      * by rewrite !count_setup_app, Hc1, Hc2.
      * rewrite !mutated_app, Hm1, Hm2. cbn. by rewrite app_nil_r.
      * rewrite !elem_of_app, elem_of_cons. auto.
      * by rewrite !app_assoc, last_snoc.
Qed.

Lemma mutated_closing (b : bool) :
  mutated (if b then [SessionClose] else []) = [].
Proof. by destruct b. Qed.

Lemma RunJob_not_closing (b : bool) :
  RunJob ∉ (if b then [SessionClose] else []).
Proof. destruct b; [|apply not_elem_of_nil]. by intros [=]%list_elem_of_singleton. Qed.

(** X15. The set-up stops at the first statement the session refuses.
    The statements handed to the session are, in order, the drop
    statements (when [dropSchema] is set and the mode is not "read") and
    then the create statements, up to and including the first one that
    fails; [runJob] is called exactly when none fails, and then with the
    schema at hand. *)
Theorem setup_stops_at_first_failure {Table : Type} cfg flags
    (env : SetupAnswers Table) schema :
  schema_of flags env = Ok schema ->
  let stmts := planned cfg flags schema in
  let evs := (run_main cfg flags env).1 in
  match first_failure (ans_setup_Mutate env) 0 (length stmts) with
  | None =>
      mutated evs = stmts /\
      (run_main cfg flags env).2 = Some schema /\
      RunJob ∈ evs
  | Some k =>
      mutated evs = take (S k) stmts /\
      (run_main cfg flags env).2 = None /\
      RunJob ∉ evs
  end.
Proof.
  intros Hschema stmts evs. subst stmts evs.
  destruct (run_main_spec cfg flags env schema Hschema)
    as (body & closing & -> & _ & _ & Hspec).
  rewrite !mutated_app. cbn [mutated omap app].
  destruct (first_failure _ _ _) as [k|].
  - destruct Hspec as (-> & -> & Hrun & ->). cbn [mutated omap]. rewrite app_nil_r.
    split_and!; [done|done|].
    intros Hin. apply Hrun. revert Hin.
    repeat (rewrite elem_of_cons || rewrite elem_of_app || rewrite elem_of_nil).
    naive_solver.
  - destruct Hspec as (-> & -> & Hrun & _ & ->). rewrite mutated_closing, app_nil_r.
    split_and!; [done|done|].
    repeat (rewrite elem_of_cons || rewrite elem_of_app). auto 10.
Qed.

Lemma setup_stops_at_first_failure_witness :
  mutated (run_main example_cfg example_flags refusing_setup).1
  = take 2 (planned example_cfg example_flags example_schema) /\
  (run_main example_cfg example_flags refusing_setup).2 = None /\
  RunJob ∉ (run_main example_cfg example_flags refusing_setup).1.
Proof.
  exact (setup_stops_at_first_failure example_cfg example_flags refusing_setup
           example_schema eq_refl).
Defined.

(** X16. In read mode the schema is never dropped: whatever [dropSchema]
    says, [run] behaves as if it were not set, and every statement handed
    to the session is a create statement. *)
Theorem read_mode_never_drops {Table : Type} cfg flags (env : SetupAnswers Table) :
  mode cfg = readMode ->
  run_main cfg flags env = run_main cfg (mkFlags (schemaFile flags) false) env /\
  forall schema, schema_of flags env = Ok schema ->
    mutated (run_main cfg flags env).1 `prefix_of` GetCreateSchema schema.
Proof.
  intros Hmode.
  assert (Hcond : dropSchema flags && negb (String.eqb (mode cfg) readMode) = false).
  { rewrite Hmode. cbn. apply andb_false_r. }
  split.
  - unfold run_main, schema_of. cbn [schemaFile dropSchema]. by rewrite Hcond.
  - intros schema Hschema.
    destruct (run_main_spec cfg flags env schema Hschema)
      as (body & closing & -> & _ & _ & Hspec).
    rewrite !mutated_app. cbn [mutated omap app].
    unfold planned in Hspec. rewrite Hcond in Hspec. cbn [app] in Hspec.
    destruct (first_failure _ _ _) as [k|].
    + destruct Hspec as (-> & _ & _ & ->). cbn [mutated omap]. rewrite app_nil_r.
      apply prefix_take.
    + destruct Hspec as (-> & _ & _ & _ & ->). by rewrite mutated_closing, app_nil_r.
Qed.

Lemma read_mode_never_drops_witness :
  run_main failfast_cfg example_flags willing_setup
  = run_main failfast_cfg (mkFlags (schemaFile example_flags) false) willing_setup.
Proof.
  exact (proj1 (read_mode_never_drops failfast_cfg example_flags willing_setup eq_refl)).
Defined.

(** X17. The session is closed exactly when [run] gets to its deferred
    call.  If the schema cannot be read, [run] returns before creating a
    session: nothing is executed and [runJob] is not called.  Otherwise
    exactly one session is created.  When a statement of the set-up
    fails, [Close] is called once and is the last thing [run] does.  When
    none fails, [runJob] is called, and the same holds if it returns or if
    its [workers.Add] panics; if it stays in [workers.Wait()], the call of
    [runJob] is the last thing [run] does and the session is never
    closed. *)
Theorem session_closed_when_run_unwinds {Table : Type} cfg flags
    (env : SetupAnswers Table) :
  let evs := (run_main cfg flags env).1 in
  match schema_of flags env with
  | Err err =>
      last evs = Some (PrintCannotCreateSchema err) /\
      count_setup is_new_session evs = 0%nat /\
      count_setup is_session_close evs = 0%nat /\
      mutated evs = [] /\
      (run_main cfg flags env).2 = None
  | Ok schema =>
      count_setup is_new_session evs = 1%nat /\
      match first_failure (ans_setup_Mutate env) 0 (length (planned cfg flags schema)) with
      | Some _ =>
          count_setup is_session_close evs = 1%nat /\ last evs = Some SessionClose
      | None =>
          match WaitGroup_Add 0 (GoInt.mul (Z.of_nat (length (Tables schema)))
                                           (concurrency cfg)) with
          | Some _ =>
              if ans_runJob_returns env
              then count_setup is_session_close evs = 1%nat /\
                   last evs = Some SessionClose
              else count_setup is_session_close evs = 0%nat /\
                   last evs = Some RunJob
          | None =>
              count_setup is_session_close evs = 1%nat /\ last evs = Some SessionClose
          end
      end
  end.
Proof.
  cbn zeta. destruct (schema_of flags env) as [schema|err] eqn:Hschema.
  - destruct (run_main_spec cfg flags env schema Hschema)
      as (body & closing & -> & Hn & Hc & Hspec).
    assert (Hclosed : closing = [SessionClose] ->
              count_setup is_new_session
                ([SeedRand (GoInt.int64 (seed cfg)); PrintBanner; PrintSchema; NewSession]
                 ++ body ++ closing) = 1%nat /\
              count_setup is_session_close
                ([SeedRand (GoInt.int64 (seed cfg)); PrintBanner; PrintSchema; NewSession]
                 ++ body ++ closing) = 1%nat /\
              last ([SeedRand (GoInt.int64 (seed cfg)); PrintBanner; PrintSchema; NewSession]
                    ++ body ++ closing) = Some SessionClose).
    { intros ->. rewrite !count_setup_app, Hn, Hc. split_and!; [done|done|].
      by rewrite !app_assoc, last_snoc. }
    destruct (first_failure _ _ _) as [k|].
    + destruct Hspec as (_ & _ & _ & Hcl). destruct (Hclosed Hcl) as (? & ? & ?). done.
    + destruct Hspec as (_ & _ & _ & Hlast & Hcl). unfold run_unwinds in Hcl.
      destruct (WaitGroup_Add 0 _) as [counter|].
      * destruct (ans_runJob_returns env).
        -- destruct (Hclosed Hcl) as (? & ? & ?). done.
        -- rewrite Hcl, app_nil_r, !count_setup_app, Hn, Hc. split_and!; [done|done|].
           destruct body as [|e body]; [done|].
           by rewrite (last_app_cons _ _ e).
      * destruct (Hclosed Hcl) as (? & ? & ?). done.
  - unfold run_main. rewrite Hschema. by cbn.
Qed.

Lemma session_closed_when_run_unwinds_witness :
  count_setup is_new_session (run_main example_cfg example_flags stuck_setup).1 = 1%nat /\
  count_setup is_session_close (run_main example_cfg example_flags stuck_setup).1 = 0%nat /\
  last (run_main example_cfg example_flags stuck_setup).1 = Some RunJob.
Proof.
  exact (session_closed_when_run_unwinds example_cfg example_flags stuck_setup).
Defined.


(** ** The local fail-fast exit and the batch handoff *)

(** X18. The local fail-fast exit looks at the counter after the batch
    handoff has reset it.  With [failFast] set in read mode, a check that
    fails in an iteration whose number is not a multiple of 1000 makes the
    worker leave its loop with the error in its counter; one that fails in
    an iteration whose number is a multiple of 1000 is handed off with the
    batch, and the worker goes on with a zero counter. *)
Theorem fail_fast_exit_skips_handoff_iterations cfg a l msg :
  mode cfg = readMode ->
  failFast cfg = true ->
  ans_Check a = Some (ErrOther msg) ->
  0 <= ReadErrors (testStatus l) < GoInt.max_int ->
  let st := incrReadErrors (testStatus l) in
  ReadErrors st = ReadErrors (testStatus l) + 1 /\
  Job_body cfg a l =
    if Z.rem (i l) 1000 =? 0
    then mkIter (validationJob cfg a (testStatus l)).1 (Some st)
                (inl (mkLocals (GoInt.incr (i l)) zeroStatus))
    else mkIter (validationJob cfg a (testStatus l)).1 None (inr (ByBreak st)).
Proof.
  intros Hmode Hff Hcheck Hre st.
  assert (Hst : ReadErrors st = ReadErrors (testStatus l) + 1).
  { subst st. cbn. apply wrap_small.
    unfold GoInt.in_range, GoInt.min_int, GoInt.max_int in *. lia. }
  split; [done|].
  unfold Job_body. rewrite run_op_read by done.
  unfold validationJob at 1. rewrite Hcheck.
  unfold validationJob. rewrite Hcheck. cbn [fst snd]. fold st.
  destruct (Z.rem (i l) 1000 =? 0).
  - by rewrite andb_false_r.
  - rewrite Hff. cbn [andb].
    destruct (Z.ltb_spec 0 (ReadErrors st)); [done|lia].
Qed.

Lemma fail_fast_exit_skips_handoff_iterations_witness :
  Job_body failfast_cfg diverging_answers initLocals =
    mkIter [PrintCheckFailed (mkStmt "SELECT" []) (ErrOther "rows differ")]
           (Some (mkStatus 0 0 0 1))
           (inl (mkLocals 1 zeroStatus)).
Proof.
  assert (Hre : 0 <= ReadErrors (testStatus initLocals) < GoInt.max_int)
    by (split; vm_compute; [discriminate|reflexivity]).
  exact (proj2 (fail_fast_exit_skips_handoff_iterations failfast_cfg diverging_answers
                  initLocals "rows differ" eq_refl eq_refl eq_refl Hre)).
Defined.

(** ** The deadline *)

Lemma cancelled_workers_exit cfg ws_done ws_run rep lg :
  Forall is_running ws_run ->
  run cfg (mkSys (ws_done ++ ws_run) rep true lg)
      (WorkerTurn <$> seq (length ws_done) (length ws_run))
  = mkSys (ws_done ++ replicate (length ws_run) Exited) rep true
          (lg ++ replicate (length ws_run) WorkersDone).
Proof.
  intros Hrun. revert ws_done lg.
  induction Hrun as [|w ws_run Hw _ IH]; intros ws_done lg.
  - cbn. by rewrite !app_nil_r.
  - destruct w as [l script| | |]; try done.
    cbn [length seq fmap list_fmap].
    change (run cfg ?s (?a :: ?rest)) with (run cfg (step cfg s a) rest).
    cbn [step]. unfold worker_turn. cbn [workers workerCtx].
    rewrite list_lookup_middle by done.
    cbn [Job_iter iter_next after_iter]. unfold set_worker, add_log.
    cbn [workers reporter workerCtx log].
    rewrite insert_app_r_alt, Nat.sub_diag by done.
    cbn [insert list_insert].
    specialize (IH (ws_done ++ [Exited]) (lg ++ [WorkersDone])).
    rewrite length_app, Nat.add_1_r in IH. rewrite <- !app_assoc in IH.
    cbn [app] in IH. rewrite IH. cbn [replicate]. done.
Qed.

(** X19. Once the workers are cancelled, workers that are between two
    iterations wind down on their own: each of them, at its next turn,
    returns without running an operation and without sending its counter,
    so the log gains one [wg.Done()] per worker and nothing else, and no
    counter and no printed total is added.  If the reporter has left its
    loop, the coordinator's wait then changes nothing. *)
Theorem cancelled_workers_wind_down cfg sys :
  workerCtx sys = true ->
  Forall is_running (workers sys) ->
  let n := length (workers sys) in
  let sys' := run cfg sys (WorkerTurn <$> seq 0 n) in
  workers sys' = replicate n Exited /\
  reporter sys' = reporter sys /\
  workerCtx sys' = true /\
  log sys' = log sys ++ replicate n WorkersDone /\
  sent (log sys') = sent (log sys) /\
  reports (log sys') = reports (log sys) /\
  (reporter sys = None -> run cfg sys' [WorkersWaited] = sys').
Proof.
  intros Hctx Hrun n sys'.
  pose proof (cancelled_workers_exit cfg [] (workers sys) (reporter sys) (log sys) Hrun)
    as Hexit.
  cbn [app length] in Hexit. fold n in Hexit.
  assert (Hsys : mkSys (workers sys) (reporter sys) true (log sys) = sys).
  { destruct sys as [ws rep ctx lg]. cbn in Hctx. by rewrite Hctx. }
  rewrite Hsys in Hexit. subst sys'. rewrite Hexit. cbn [workers reporter workerCtx log].
  assert (Hquiet : sent (replicate n WorkersDone) = [] /\
                   reports (replicate n WorkersDone) = []).
  { clear. induction n as [|n IH]; [done|exact IH]. }
  destruct Hquiet as [Hsent Hreports].
  split_and!; [done|done|done|done| | |].
  - by rewrite sent_app, Hsent, app_nil_r.
  - by rewrite reports_app, Hreports, app_nil_r.
  - intros Hnone. unfold run. cbn [foldl step].
    unfold coordinator_turn, reporter_round. cbn [reporter workers]. rewrite Hnone.
    by destruct (forallb is_exited (replicate n Exited)).
Qed.

Lemma cancelled_workers_wind_down_witness :
  workers (run example_cfg
             (run example_cfg (runJob example_cfg example_tables example_scripts)
                  [WorkerTurn 0; WorkerTurn 0; TimerFires])
             (WorkerTurn <$> seq 0 2))
  = replicate 2 Exited /\
  sent (log (run example_cfg
               (run example_cfg (runJob example_cfg example_tables example_scripts)
                    [WorkerTurn 0; WorkerTurn 0; TimerFires])
               (WorkerTurn <$> seq 0 2)))
  = [mkStatus 1 1 0 0].
Proof.
  assert (Hrun : Forall is_running
                   (workers (run example_cfg
                               (runJob example_cfg example_tables example_scripts)
                               [WorkerTurn 0; WorkerTurn 0; TimerFires])))
    by (repeat constructor).
  destruct (cancelled_workers_wind_down example_cfg
              (run example_cfg (runJob example_cfg example_tables example_scripts)
                   [WorkerTurn 0; WorkerTurn 0; TimerFires])
              eq_refl Hrun) as (Hws & _ & _ & _ & Hsent & _).
  split; [exact Hws|exact Hsent].
Defined.
